(** * react-unused-props-and-state: the rule walker and its properties

    A shallow embedding of [src/reactUnusedPropsAndStateRule.ts].  The
    walker's mutable fields become a record that is passed from visit to
    visit; the syntax tree is a rose tree whose nodes carry what the rule
    reads from them ([kind], [getText()], [getStart()], [getWidth()], names). *)

From Stdlib Require Import List String Ascii Bool Arith ZArith Lia.
Set Warnings "-register-all".
Import ListNotations.
Local Open Scope string_scope.
Local Open Scope list_scope.

(** ** JavaScript strings and the regular expressions of the rule

    A [string] is a sequence of code units, one [ascii] each. *)
Module JS.

(** [s.substring(start)]: the text from index [start] to the end. *)
Fixpoint substring (start : nat) (s : string) : string :=
  match start, s with
  | O, _ => s
  | S n, EmptyString => EmptyString
  | S n, String _ rest => substring n rest
  end.

(** The patterns the rule builds are sequences of atoms followed by [.*]:
    a literal character, or the assertion [$] (end of input, no flags). *)
Inductive Atom : Type :=
| Lit (c : ascii)
| EndOfInput.

(** An escaped literal pattern such as [this\.props\.]. *)
Definition literal (s : string) : list Atom :=
  map Lit (list_ascii_of_string s).

(** A pattern built by string concatenation from an identifier's text:
    every identifier character stands for itself except [$]. *)
Definition interpolated (s : string) : list Atom :=
  map (fun c => if Ascii.eqb c "$" then EndOfInput else Lit c)
      (list_ascii_of_string s).

(** Match the atoms at the start of [s]; the trailing [.*] accepts what
    is left, whatever it is. *)
Fixpoint matchHere (p : list Atom) (s : string) : bool :=
  match p with
  | [] => true
  | Lit c :: p' =>
      match s with
      | String d s' => Ascii.eqb c d && matchHere p' s'
      | EmptyString => false
      end
  | EndOfInput :: p' =>
      match s with
      | EmptyString => matchHere p' s
      | String _ _ => false
      end
  end.

(** [regexp.test(s)] for a pattern without flags: the pattern matches at
    some index of [s]. *)
Fixpoint test (p : list Atom) (s : string) : bool :=
  matchHere p s ||
  match s with
  | EmptyString => false
  | String _ s' => test p s'
  end.

End JS.

(** ** Syntax tree *)

Inductive LanguageVariant : Type := Standard | JSX.

Inductive SyntaxKind : Type :=
| SourceFile
| InterfaceDeclaration
| ClassDeclaration
| Constructor
| MethodDeclaration
| ParameterDeclaration   (* SyntaxKind.Parameter *)
| PropertyAccessExpression
| CallExpression
| Identifier
| TypeMember      (* PropertySignature, MethodSignature, IndexSignature, ... *)
| OtherKind.      (* every kind the rule has no hook for and never tests *)

Definition SyntaxKind_eqb (a b : SyntaxKind) : bool :=
  match a, b with
  | SourceFile, SourceFile
  | InterfaceDeclaration, InterfaceDeclaration
  | ClassDeclaration, ClassDeclaration
  | Constructor, Constructor
  | MethodDeclaration, MethodDeclaration
  | ParameterDeclaration, ParameterDeclaration
  | PropertyAccessExpression, PropertyAccessExpression
  | CallExpression, CallExpression
  | Identifier, Identifier
  | TypeMember, TypeMember
  | OtherKind, OtherKind => true
  | _, _ => false
  end.

(** The name of a member or method: [name.text] is defined for the first
    three forms and [undefined] for a computed name. *)
Inductive PropertyName : Type :=
| IdentifierName (text : string)
| StringLiteralName (text : string)
| NumericLiteralName (text : string)
| ComputedPropertyName.

Definition PropertyName_text (n : PropertyName) : option string :=
  match n with
  | IdentifierName t | StringLiteralName t | NumericLiteralName t => Some t
  | ComputedPropertyName => None
  end.

(** The name of a parameter: an identifier, or a destructuring pattern,
    which has no [text]. *)
Inductive BindingName : Type :=
| BindingIdentifier (text : string)
| BindingPattern.

Definition BindingName_text (n : BindingName) : option string :=
  match n with
  | BindingIdentifier t => Some t
  | BindingPattern => None
  end.

(** What the rule reads from a node besides its position and text. *)
Inductive NodeData : Type :=
| InterfaceDeclarationData (name : string)
| ClassDeclarationData
| ConstructorData
| MethodDeclarationData (name : PropertyName)
| ParameterData (name : BindingName)
| PropertyAccessExpressionData
| CallExpressionData (expressionText : string)   (* call.expression.getText() *)
| IdentifierData (text : string)
| TypeElementData (name : option PropertyName)
| OtherData.

(** A node below the source file.  [children] lists what [ts.forEachChild]
    visits, in source order. *)
Inductive Node : Type :=
  mkNode { data : NodeData;
           getStart : Z;
           getWidth : Z;
           getText : string;
           children : list Node }.

Record SourceFileNode : Type :=
  mkSourceFile { languageVariant : LanguageVariant;
                 statements : list Node }.

Definition kind (n : Node) : SyntaxKind :=
  match data n with
  | InterfaceDeclarationData _ => InterfaceDeclaration
  | ClassDeclarationData => ClassDeclaration
  | ConstructorData => Constructor
  | MethodDeclarationData _ => MethodDeclaration
  | ParameterData _ => ParameterDeclaration
  | PropertyAccessExpressionData => PropertyAccessExpression
  | CallExpressionData _ => CallExpression
  | IdentifierData _ => Identifier
  | TypeElementData _ => TypeMember
  | OtherData => OtherKind
  end.

(** [node.parent]: the source file for a statement, a node otherwise. *)
Inductive Parent : Type :=
| ParentSourceFile
| ParentNode (p : Node).

Definition parentKind (p : Parent) : SyntaxKind :=
  match p with
  | ParentSourceFile => SourceFile
  | ParentNode n => kind n
  end.

(** [node.members] of an interface and [node.parameters] of a constructor
    or method are the children of that kind. *)
Definition members (n : Node) : list Node :=
  filter (fun c => SyntaxKind_eqb (kind c) TypeMember) (children n).

Definition parameters (n : Node) : list Node :=
  filter (fun c => SyntaxKind_eqb (kind c) ParameterDeclaration) (children n).

(** [(<ts.Identifier>parameter.name).text] *)
Definition parameterNameText (p : Node) : option string :=
  match data p with
  | ParameterData name => BindingName_text name
  | _ => None
  end.

(** [typeElement.name] and then [.text], [None] when either is missing. *)
Definition typeElementNameText (te : Node) : option string :=
  match data te with
  | TypeElementData (Some name) => PropertyName_text name
  | _ => None
  end.

(** ** Objects used as maps from member name to declaration node *)
Module JsObject.

(** Own properties in creation order. *)
Definition t : Type := list (string * Node).

Definition empty : t := [].

Fixpoint get (o : t) (k : string) : option Node :=
  match o with
  | [] => None
  | (k', v) :: o' => if String.eqb k' k then Some v else get o' k
  end.

Fixpoint put (o : t) (k : string) (v : Node) : t :=
  match o with
  | [] => [(k, v)]
  | (k', v') :: o' =>
      if String.eqb k' k then (k', v) :: o' else (k', v') :: put o' k v
  end.

(** [o[k] = v] on an object literal: the key [__proto__] reaches the
    accessor of [Object.prototype] and creates no own property. *)
Definition set (o : t) (k : string) (v : Node) : t :=
  if String.eqb k "__proto__" then o else put o k v.

(** The value of a canonical array index ("0", "7", "42", below 2^32-1). *)
Definition digit (c : ascii) : option N :=
  let n := N_of_ascii c in
  if ((48 <=? n) && (n <=? 57))%N then Some (n - 48)%N else None.

Fixpoint decimal (acc : N) (s : string) : option N :=
  match s with
  | EmptyString => Some acc
  | String c s' =>
      match digit c with
      | Some d => decimal (acc * 10 + d)%N s'
      | None => None
      end
  end.

Definition arrayIndex (k : string) : option N :=
  match k with
  | EmptyString => None
  | String "0" EmptyString => Some 0%N
  | String "0" _ => None
  | _ =>
      match decimal 0%N k with
      | Some n => if (n <? 4294967295)%N then Some n else None
      | None => None
      end
  end.

Fixpoint insertIndex (n : N) (k : string) (l : list (N * string)) : list (N * string) :=
  match l with
  | [] => [(n, k)]
  | (m, k') :: l' =>
      if (n <=? m)%N then (n, k) :: l else (m, k') :: insertIndex n k l'
  end.

Fixpoint indexKeys (o : t) : list (N * string) :=
  match o with
  | [] => []
  | (k, _) :: o' =>
      match arrayIndex k with
      | Some n => insertIndex n k (indexKeys o')
      | None => indexKeys o'
      end
  end.

Fixpoint nameKeys (o : t) : list string :=
  match o with
  | [] => []
  | (k, _) :: o' =>
      match arrayIndex k with
      | Some _ => nameKeys o'
      | None => k :: nameKeys o'
      end
  end.

(** [Object.keys(o)]: array indices in ascending order, then the other
    keys in creation order. *)
Definition keys (o : t) : list string :=
  map snd (indexKeys o) ++ nameKeys o.

End JsObject.

(** ** The walker *)

Record RuleFailure : Type :=
  mkRuleFailure { failureStart : Z;
                  failureWidth : Z;
                  failureMessage : string }.

(** [createFailure(start, width, message)] *)
Definition createFailure (start width : Z) (message : string) : RuleFailure :=
  mkRuleFailure start width message.

Definition FAILURE_UNUSED_PROP : string :=
  "Unused React property defined in interface: ".
Definition FAILURE_UNUSED_STATE : string :=
  "Unused React state defined in interface: ".

(** The fields of [ReactUnusedPropsAndStateRuleWalker], and the failures
    handed to the reporting sink so far.  An alias that is [undefined] is
    [None]. *)
Record Walker : Type :=
  mkWalker { propNames : list string;
             propNodes : JsObject.t;
             stateNames : list string;
             stateNodes : JsObject.t;
             classDeclarations : list Node;
             propsAlias : option string;
             stateAlias : option string;
             failures : list RuleFailure }.

(** [new ReactUnusedPropsAndStateRuleWalker(...)] *)
Definition newWalker : Walker :=
  mkWalker [] JsObject.empty [] JsObject.empty [] None None [].

Definition set_propNames (w : Walker) (v : list string) : Walker :=
  mkWalker v (propNodes w) (stateNames w) (stateNodes w)
           (classDeclarations w) (propsAlias w) (stateAlias w) (failures w).
Definition set_propNodes (w : Walker) (v : JsObject.t) : Walker :=
  mkWalker (propNames w) v (stateNames w) (stateNodes w)
           (classDeclarations w) (propsAlias w) (stateAlias w) (failures w).
Definition set_stateNames (w : Walker) (v : list string) : Walker :=
  mkWalker (propNames w) (propNodes w) v (stateNodes w)
           (classDeclarations w) (propsAlias w) (stateAlias w) (failures w).
Definition set_stateNodes (w : Walker) (v : JsObject.t) : Walker :=
  mkWalker (propNames w) (propNodes w) (stateNames w) v
           (classDeclarations w) (propsAlias w) (stateAlias w) (failures w).
Definition set_classDeclarations (w : Walker) (v : list Node) : Walker :=
  mkWalker (propNames w) (propNodes w) (stateNames w) (stateNodes w)
           v (propsAlias w) (stateAlias w) (failures w).
Definition set_propsAlias (w : Walker) (v : option string) : Walker :=
  mkWalker (propNames w) (propNodes w) (stateNames w) (stateNodes w)
           (classDeclarations w) v (stateAlias w) (failures w).
Definition set_stateAlias (w : Walker) (v : option string) : Walker :=
  mkWalker (propNames w) (propNodes w) (stateNames w) (stateNodes w)
           (classDeclarations w) (propsAlias w) v (failures w).

(** Modelled from the spec: the reporting sink of the lint framework, which
    takes the failures in the order they are reported. *)
Definition addFailure (w : Walker) (f : RuleFailure) : Walker :=
  mkWalker (propNames w) (propNodes w) (stateNames w) (stateNodes w)
           (classDeclarations w) (propsAlias w) (stateAlias w)
           (failures w ++ [f]).

(** Modelled from the spec: [Utils.remove] of [utils/Utils], which is not
    among the sources: the list without the elements equal to the given
    one ("remove the referenced member name from the still-unused set"). *)
Definition Utils_remove (source : list string) (elementToRemove : string) : list string :=
  filter (fun sourceElement => negb (String.eqb sourceElement elementToRemove)) source.

(** [/this\.props\..*/], [/this\.state\..*/] and the pattern of an alias,
    [new RegExp(alias + '\\..*')]. *)
Definition thisPropsPattern : list JS.Atom := JS.literal "this.props.".
Definition thisStatePattern : list JS.Atom := JS.literal "this.state.".
Definition aliasPattern (alias : string) : list JS.Atom :=
  JS.interpolated alias ++ JS.literal ".".

(** The two patterns of [visitMethodDeclaration]; an alternation matches
    where one of its branches does. *)
Definition propsHookPatterns : list (list JS.Atom) :=
  [ JS.literal "componentWillReceiveProps"; JS.literal "shouldComponentUpdate";
    JS.literal "componentWillUpdate"; JS.literal "componentDidUpdate" ].
Definition stateHookPatterns : list (list JS.Atom) :=
  [ JS.literal "shouldComponentUpdate"; JS.literal "componentWillUpdate";
    JS.literal "componentDidUpdate" ].
Definition testAlternation (branches : list (list JS.Atom)) (s : string) : bool :=
  existsb (fun p => JS.test p s) branches.

Definition getTypeElementData (node : Node) : JsObject.t :=
  fold_left
    (fun result typeElement =>
       match typeElementNameText typeElement with
       | Some text => JsObject.set result text typeElement
       | None => result
       end)
    (members node) JsObject.empty.

Definition isParentNodeSuperCall (parent : Parent) : bool :=
  match parent with
  | ParentNode call =>
      match data call with
      | CallExpressionData expressionText => String.eqb expressionText "super"
      | _ => false
      end
  | ParentSourceFile => false
  end.

(** The hooks.  [super] is the inherited visit of the same node; the
    traversal facility's default, which walks the node's children.  Each
    hook is cut into the steps of its body, in the order of the source. *)
Section Hooks.
Variable super : Walker -> Walker.

(** Lines 71-73: the class is queued and its children are not walked. *)
Definition visitClassDeclaration (w : Walker) (node : Node) : Walker :=
  set_classDeclarations w (classDeclarations w ++ [node]).

(** [node.name.text] of an interface declaration *)
Definition interfaceName (node : Node) : string :=
  match data node with
  | InterfaceDeclarationData name => name
  | _ => ""
  end.

(** Lines 76-83: the two tests on the name of the interface. *)
Definition declareContracts (w : Walker) (node : Node) : Walker :=
  let w :=
    if String.eqb (interfaceName node) "Props" then
      let w := set_propNodes w (getTypeElementData node) in
      set_propNames w (JsObject.keys (propNodes w))
    else w in
  if String.eqb (interfaceName node) "State" then
    let w := set_stateNodes w (getTypeElementData node) in
    set_stateNames w (JsObject.keys (stateNodes w))
  else w.

Definition visitInterfaceDeclaration (w : Walker) (node : Node) : Walker :=
  super (declareContracts w node).

(** Lines 89-93: [this.props.x] and [this.state.x]. *)
Definition readCanonical (w : Walker) (referencedPropertyName : string) : Walker :=
  if JS.test thisPropsPattern referencedPropertyName then
    set_propNames w (Utils_remove (propNames w) (JS.substring 11 referencedPropertyName))
  else if JS.test thisStatePattern referencedPropertyName then
    set_stateNames w (Utils_remove (stateNames w) (JS.substring 11 referencedPropertyName))
  else w.

(** Lines 94-98 *)
Definition readPropsAlias (w : Walker) (referencedPropertyName : string) : Walker :=
  match propsAlias w with
  | Some alias =>
      if JS.test (aliasPattern alias) referencedPropertyName then
        set_propNames w
          (Utils_remove (propNames w)
             (JS.substring (String.length alias + 1) referencedPropertyName))
      else w
  | None => w
  end.

(** Lines 99-103 *)
Definition readStateAlias (w : Walker) (referencedPropertyName : string) : Walker :=
  match stateAlias w with
  | Some alias =>
      if JS.test (aliasPattern alias) referencedPropertyName then
        set_stateNames w
          (Utils_remove (stateNames w)
             (JS.substring (String.length alias + 1) referencedPropertyName))
      else w
  | None => w
  end.

(** Lines 104-112: [this.props] or [this.state] used as a value. *)
Definition escapeCanonical (w : Walker) (parent : Parent)
    (referencedPropertyName : string) : Walker :=
  if negb (SyntaxKind_eqb (parentKind parent) PropertyAccessExpression) then
    if String.eqb referencedPropertyName "this.props" then set_propNames w []
    else if String.eqb referencedPropertyName "this.state" then set_stateNames w []
    else w
  else w.

(** The body of [visitPropertyAccessExpression] up to the inherited visit. *)
Definition accessProperty (w : Walker) (parent : Parent) (node : Node) : Walker :=
  let referencedPropertyName := getText node in
  let w := readCanonical w referencedPropertyName in
  let w := readPropsAlias w referencedPropertyName in
  let w := readStateAlias w referencedPropertyName in
  escapeCanonical w parent referencedPropertyName.

Definition visitPropertyAccessExpression (w : Walker) (parent : Parent)
    (node : Node) : Walker :=
  super (accessProperty w parent node).

(** [node.text] of an identifier *)
Definition identifierText (node : Node) : string :=
  match data node with
  | IdentifierData text => text
  | _ => ""
  end.

(** Lines 117-126 *)
Definition escapePropsAlias (w : Walker) (parent : Parent) (node : Node) : Walker :=
  match propsAlias w with
  | Some alias =>
      if String.eqb (identifierText node) alias
         && negb (SyntaxKind_eqb (parentKind parent) PropertyAccessExpression)
         && negb (SyntaxKind_eqb (parentKind parent) ParameterDeclaration)
         && Bool.eqb (isParentNodeSuperCall parent) false
      then set_propNames w []
      else w
  | None => w
  end.

(** Lines 127-135 *)
Definition escapeStateAlias (w : Walker) (parent : Parent) (node : Node) : Walker :=
  match stateAlias w with
  | Some alias =>
      if String.eqb (identifierText node) alias
         && negb (SyntaxKind_eqb (parentKind parent) PropertyAccessExpression)
         && negb (SyntaxKind_eqb (parentKind parent) ParameterDeclaration)
      then set_stateNames w []
      else w
  | None => w
  end.

(** The body of [visitIdentifier] up to the inherited visit. *)
Definition referIdentifier (w : Walker) (parent : Parent) (node : Node) : Walker :=
  escapeStateAlias (escapePropsAlias w parent node) parent node.

Definition visitIdentifier (w : Walker) (parent : Parent) (node : Node) : Walker :=
  super (referIdentifier w parent node).

(** Lines 143-145 *)
Definition enterConstructor (w : Walker) (node : Node) : Walker :=
  match parameters node with
  | first :: _ => set_propsAlias w (parameterNameText first)
  | [] => w
  end.

Definition visitConstructorDeclaration (w : Walker) (node : Node) : Walker :=
  let w := enterConstructor w node in
  let w := super w in
  set_propsAlias w None.

(** [(<ts.Identifier>node.name).text]; [test] turns a missing text into
    the string ["undefined"]. *)
Definition methodName (node : Node) : string :=
  match data node with
  | MethodDeclarationData name =>
      match PropertyName_text name with
      | Some text => text
      | None => "undefined"
      end
  | _ => "undefined"
  end.

(** Lines 152-159 *)
Definition enterMethod (w : Walker) (node : Node) : Walker :=
  let w :=
    match parameters node with
    | first :: _ =>
        if testAlternation propsHookPatterns (methodName node)
        then set_propsAlias w (parameterNameText first)
        else w
    | [] => w
    end in
  match parameters node with
  | _ :: second :: _ =>
      if testAlternation stateHookPatterns (methodName node)
      then set_stateAlias w (parameterNameText second)
      else w
  | _ => w
  end.

Definition visitMethodDeclaration (w : Walker) (node : Node) : Walker :=
  let w := enterMethod w node in
  let w := super w in
  set_stateAlias (set_propsAlias w None) None.

End Hooks.

(** Modelled from the spec: the traversal facility ([ErrorTolerantWalker]
    over the framework's syntax walker, neither among the sources): a node
    is dispatched on its kind to the hook for that kind, and the default for
    every kind, which the hooks reach as [super], visits the children in
    order. *)
Fixpoint visitNode (w : Walker) (parent : Parent) (node : Node) {struct node} : Walker :=
  let super := fun w' =>
    fold_left (fun acc child => visitNode acc (ParentNode node) child)
              (children node) w' in
  match kind node with
  | ClassDeclaration => visitClassDeclaration w node
  | InterfaceDeclaration => visitInterfaceDeclaration super w node
  | PropertyAccessExpression => visitPropertyAccessExpression super w parent node
  | Identifier => visitIdentifier super w parent node
  | Constructor => visitConstructorDeclaration super w node
  | MethodDeclaration => visitMethodDeclaration super w node
  | _ => super w
  end.

Definition walkChildren (w : Walker) (node : Node) : Walker :=
  fold_left (fun acc child => visitNode acc (ParentNode node) child)
            (children node) w.

(** A completion of a JavaScript computation: a value, or a thrown error. *)
Inductive Completion (A : Type) : Type :=
| Normal (value : A)
| Throw (error : string).
Arguments Normal {A} value.
Arguments Throw {A} error.

(** The report loops of [visitSourceFile].  A name without a declaration
    node would make [typeElement] undefined and [typeElement.getStart()]
    throw. *)
Fixpoint reportUnused (message : string) (nodes : JsObject.t)
    (names : list string) (w : Walker) : Completion Walker :=
  match names with
  | [] => Normal w
  | name :: rest =>
      match JsObject.get nodes name with
      | Some typeElement =>
          reportUnused message nodes rest
            (addFailure w (createFailure (getStart typeElement) (getWidth typeElement)
                                         (message ++ name)))
      | None => Throw "TypeError: Cannot read property 'getStart' of undefined"
      end
  end.

(** The three steps of [visitSourceFile]: the inherited visit of the file,
    which walks its statements (line 51); the walk of the queued classes
    (lines 54-56), over the queue as it is when the loop starts, as
    [forEach] does; the two report loops (lines 58-65). *)
Definition collect (w : Walker) (node : SourceFileNode) : Walker :=
  fold_left (fun acc child => visitNode acc ParentSourceFile child) (statements node) w.

Definition analyze (w : Walker) : Walker :=
  if (0 <? List.length (propNames w))%nat || (0 <? List.length (stateNames w))%nat then
    fold_left walkChildren (classDeclarations w) w
  else w.

Definition report (w : Walker) : Completion Walker :=
  match reportUnused FAILURE_UNUSED_PROP (propNodes w) (propNames w) w with
  | Normal w' => reportUnused FAILURE_UNUSED_STATE (stateNodes w') (stateNames w') w'
  | Throw e => Throw e
  end.

Definition visitSourceFile (w : Walker) (node : SourceFileNode) : Completion Walker :=
  report (analyze (collect w node)).

(** [applyWithWalker(walker)]: walk the file, hand back the failures. *)
Definition applyWithWalker (sourceFile : SourceFileNode) : Completion (list RuleFailure) :=
  match visitSourceFile newWalker sourceFile with
  | Normal w => Normal (failures w)
  | Throw e => Throw e
  end.

(** [Rule.apply], over the traversal it is given. *)
Definition Rule_apply_with
    (traverse : SourceFileNode -> Completion (list RuleFailure))
    (sourceFile : SourceFileNode) : Completion (list RuleFailure) :=
  match languageVariant sourceFile with
  | JSX => traverse sourceFile
  | Standard => Normal []
  end.

Definition Rule_apply : SourceFileNode -> Completion (list RuleFailure) :=
  Rule_apply_with applyWithWalker.

(** ** Sample syntax: nodes as the parser lays them out *)
Module Syntax.

Definition token (start : Z) (text : string) : Node :=
  mkNode OtherData start (Z.of_nat (String.length text)) text [].

Definition identifier (start : Z) (text : string) : Node :=
  mkNode (IdentifierData text) start (Z.of_nat (String.length text)) text [].

(** [expression.name] *)
Definition propertyAccess (expression name : Node) : Node :=
  mkNode PropertyAccessExpressionData (getStart expression)
         (getWidth expression + 1 + getWidth name)
         (getText expression ++ "." ++ getText name)
         [expression; name].

(** [this.props.name] and [alias.name], starting at [start]. *)
Definition thisDot (start : Z) (member : string) : Node :=
  propertyAccess (token start "this") (identifier (start + 5) member).

Definition canonicalRead (start : Z) (carrier member : string) : Node :=
  propertyAccess (thisDot start carrier)
                 (identifier (start + 6 + Z.of_nat (String.length carrier)) member).

Definition aliasRead (start : Z) (alias member : string) : Node :=
  propertyAccess (identifier start alias)
                 (identifier (start + 1 + Z.of_nat (String.length alias)) member).

(** [callee(argument)] *)
Definition call (callee argument : Node) : Node :=
  mkNode (CallExpressionData (getText callee)) (getStart callee)
         (getWidth callee + 2 + getWidth argument)
         (getText callee ++ "(" ++ getText argument ++ ")")
         [callee; argument].

(** A statement, block or other node without a hook around [parts]. *)
Definition group (start : Z) (text : string) (parts : list Node) : Node :=
  mkNode OtherData start (Z.of_nat (String.length text)) text parts.

Definition parameter (start : Z) (name : string) : Node :=
  mkNode (ParameterData (BindingIdentifier name)) start
         (Z.of_nat (String.length name)) name [identifier start name].

Definition propertySignature (start : Z) (name : string) : Node :=
  mkNode (TypeElementData (Some (IdentifierName name))) start
         (Z.of_nat (String.length name) + 9) (name ++ ": string;")
         [identifier start name; token (start + Z.of_nat (String.length name) + 2) "string"].

Definition interface (start width : Z) (name : string) (memberNodes : list Node) : Node :=
  mkNode (InterfaceDeclarationData name) start width
         ("interface " ++ name ++ " { ... }")
         (identifier (start + 10) name :: memberNodes).

Definition classDeclaration (start width : Z) (name : string) (elements : list Node) : Node :=
  mkNode ClassDeclarationData start width ("class " ++ name ++ " { ... }")
         (identifier (start + 6) name :: elements).

Definition method (start width : Z) (name : string) (params body : list Node) : Node :=
  mkNode (MethodDeclarationData (IdentifierName name)) start width
         (name ++ "(...) { ... }")
         (identifier start name :: params ++ [group (start + 1) "{ ... }" body]).

Definition constructorDeclaration (start width : Z) (params body : list Node) : Node :=
  mkNode ConstructorData start width "constructor(...) { ... }"
         (params ++ [group (start + 1) "{ ... }" body]).

End Syntax.

(** ** Where the traversal goes *)

Definition isClassDeclaration (node : Node) : bool :=
  SyntaxKind_eqb (kind node) ClassDeclaration.

(** [ok] holds of a node and of every node below it. *)
Fixpoint everywhere (ok : Parent -> Node -> bool) (parent : Parent) (node : Node)
    {struct node} : bool :=
  ok parent node
  && forallb (fun child => everywhere ok (ParentNode node) child) (children node).

(** The traversal started at [node] comes to a node that [hit] accepts:
    it goes into the children of every node but a class declaration. *)
Fixpoint reaches (hit : Parent -> Node -> bool) (parent : Parent) (node : Node)
    {struct node} : bool :=
  negb (isClassDeclaration node)
  && (hit parent node
      || existsb (fun child => reaches hit (ParentNode node) child) (children node)).

(** A node that [hit] accepts is [node] or lies anywhere below it. *)
Fixpoint anywhere (hit : Parent -> Node -> bool) (parent : Parent) (node : Node)
    {struct node} : bool :=
  hit parent node
  || existsb (fun child => anywhere hit (ParentNode node) child) (children node).

(** The class declarations the traversal started at [node] queues. *)
Fixpoint classesOf (node : Node) {struct node} : list Node :=
  if isClassDeclaration node then [node]
  else flat_map (fun child => classesOf child) (children node).

(** The classes of a file that the second phase scans. *)
Definition scannedClasses (sourceFile : SourceFileNode) : list Node :=
  flat_map classesOf (statements sourceFile).

(** A hook's work before and after the inherited visit. *)
Definition enter (w : Walker) (parent : Parent) (node : Node) : Walker :=
  match kind node with
  | InterfaceDeclaration => declareContracts w node
  | PropertyAccessExpression => accessProperty w parent node
  | Identifier => referIdentifier w parent node
  | Constructor => enterConstructor w node
  | MethodDeclaration => enterMethod w node
  | _ => w
  end.

Definition leave (node : Node) (w : Walker) : Walker :=
  match kind node with
  | Constructor => set_propsAlias w None
  | MethodDeclaration => set_stateAlias (set_propsAlias w None) None
  | _ => w
  end.

(** ** Properties of walkers and of nodes, as the theorems state them *)

Definition collectMember (result : JsObject.t) (typeElement : Node) : JsObject.t :=
  match typeElementNameText typeElement with
  | Some text => JsObject.set result text typeElement
  | None => result
  end.

(** Every name still in an unused set has a declaration node. *)
Definition Declared (w : Walker) : Prop :=
  (forall x, In x (propNames w) -> exists te, JsObject.get (propNodes w) x = Some te)
  /\ (forall x, In x (stateNames w) -> exists te, JsObject.get (stateNodes w) x = Some te).

(** The finding reported for [name]. *)
Definition reported (message : string) (nodes : JsObject.t) (name : string)
    (f : RuleFailure) : Prop :=
  exists te, JsObject.get nodes name = Some te
             /\ f = createFailure (getStart te) (getWidth te) (message ++ name).

Definition withFailures (w : Walker) (fs : list RuleFailure) : Walker :=
  mkWalker (propNames w) (propNodes w) (stateNames w) (stateNodes w)
           (classDeclarations w) (propsAlias w) (stateAlias w) (failures w ++ fs).

(** The state in which the report starts. *)
Definition analyzed (sourceFile : SourceFileNode) : Walker :=
  analyze (collect newWalker sourceFile).

(** [c] does not occur in [s]. *)
Fixpoint lacks (c : ascii) (s : string) : bool :=
  match s with
  | EmptyString => true
  | String d s' => negb (Ascii.eqb c d) && lacks c s'
  end.

Fixpoint occurrences (c : ascii) (s : string) : nat :=
  match s with
  | EmptyString => 0
  | String d s' => (if Ascii.eqb c d then 1 else 0) + occurrences c s'
  end.

(** [l'] is [l] with some of its elements taken out. *)
Definition Shrinks (l' l : list string) : Prop :=
  exists keep : string -> bool, l' = filter keep l.

(** Both unused sets of [w'] are shrunk from those of [w]. *)
Definition ShrunkFrom (w w' : Walker) : Prop :=
  Shrinks (propNames w') (propNames w) /\ Shrinks (stateNames w') (stateNames w).

(** The node is an interface declaration named [contract]. *)
Definition declares (contract : string) (node : Node) : bool :=
  match data node with
  | InterfaceDeclarationData name => String.eqb name contract
  | _ => false
  end.

(** The node declares neither contract. *)
Definition declaresNoContract (parent : Parent) (node : Node) : bool :=
  negb (declares "Props" node) && negb (declares "State" node).

Definition Unbound (w : Walker) : Prop :=
  propsAlias w = None /\ stateAlias w = None.

Inductive Contract : Type := PropsContract | StateContract.

Definition contractName (c : Contract) : string :=
  match c with
  | PropsContract => "Props"
  | StateContract => "State"
  end.

(** Two walkers that differ at most in the fields of contract [c]. *)
Definition agreeOff (c : Contract) (w1 w2 : Walker) : Prop :=
  match c with
  | PropsContract =>
      stateNames w1 = stateNames w2 /\ stateNodes w1 = stateNodes w2
  | StateContract =>
      propNames w1 = propNames w2 /\ propNodes w1 = propNodes w2
  end
  /\ classDeclarations w1 = classDeclarations w2
  /\ propsAlias w1 = propsAlias w2
  /\ stateAlias w1 = stateAlias w2
  /\ failures w1 = failures w2.





Definition unusedNames (c : Contract) (w : Walker) : list string :=
  match c with
  | PropsContract => propNames w
  | StateContract => stateNames w
  end.

Definition canonicalRoot (c : Contract) : string :=
  match c with
  | PropsContract => "this.props"
  | StateContract => "this.state"
  end.

Definition failureText (c : Contract) : string :=
  match c with
  | PropsContract => FAILURE_UNUSED_PROP
  | StateContract => FAILURE_UNUSED_STATE
  end.

(** [this.props] ([this.state]) as a complete expression: a property
    access with that text whose parent is not a property access. *)
Definition escapes (c : Contract) (parent : Parent) (node : Node) : bool :=
  SyntaxKind_eqb (kind node) PropertyAccessExpression
  && negb (SyntaxKind_eqb (parentKind parent) PropertyAccessExpression)
  && String.eqb (getText node) (canonicalRoot c).

Definition declaresNot (c : Contract) (parent : Parent) (node : Node) : bool :=
  negb (declares (contractName c) node).

Definition aliasOf (c : Contract) (w : Walker) : option string :=
  match c with
  | PropsContract => propsAlias w
  | StateContract => stateAlias w
  end.


(** The nodes that end the binding of the alias of [c]: a method
    declaration sets both alias registers when it is a lifecycle hook and
    unsets both when it is left (lines 150-163); a constructor does so for
    the props alias only (lines 142-148). *)
Definition opensScope (c : Contract) (parent : Parent) (node : Node) : bool :=
  SyntaxKind_eqb (kind node) MethodDeclaration
  || match c with
     | PropsContract => SyntaxKind_eqb (kind node) Constructor
     | StateContract => false
     end.

Definition scopeless (c : Contract) (parent : Parent) (node : Node) : bool :=
  negb (opensScope c parent node).

Fixpoint firstSome (outcomes : list (option bool)) : option bool :=
  match outcomes with
  | [] => None
  | Some b :: _ => Some b
  | None :: rest => firstSome rest
  end.

(** What the traversal started at [node] meets first: a node that [hit]
    accepts ([Some true]), a node that [stop] accepts ([Some false]), or
    neither of them ([None]).  It passes over class declarations. *)
Fixpoint meets (hit stop : Parent -> Node -> bool) (parent : Parent) (node : Node)
    {struct node} : option bool :=
  if isClassDeclaration node then None
  else if hit parent node then Some true
  else if stop parent node then Some false
  else firstSome (map (fun child => meets hit stop (ParentNode node) child)
                      (children node)).

(** The same for the traversal of a list of siblings, in order. *)
Definition meetsAmong (hit stop : Parent -> Node -> bool) (parent : Parent)
    (nodes : list Node) : option bool :=
  firstSome (map (meets hit stop parent) nodes).

(** The read [alias.member]. *)
Definition readsThrough (alias member : string) (parent : Parent) (node : Node) : bool :=
  SyntaxKind_eqb (kind node) PropertyAccessExpression
  && String.eqb (getText node) (alias ++ "." ++ member).

Definition propsHooks : list string :=
  [ "componentWillReceiveProps"; "shouldComponentUpdate";
    "componentWillUpdate"; "componentDidUpdate" ].

Definition stateHooks : list string :=
  [ "shouldComponentUpdate"; "componentWillUpdate"; "componentDidUpdate" ].

(** [s] holds one of the [hooks] as a substring. *)
Definition containsOneOf (hooks : list string) (s : string) : Prop :=
  exists hook before after,
    In hook hooks /\ s = (before ++ hook ++ after)%string.





(** The alias of contract [c] is bound to [alias]; [member] is out of the
    unused set of [c]. *)
Definition Bound (c : Contract) (alias : string) (w : Walker) : Prop :=
  aliasOf c w = Some alias.
Definition Taken (c : Contract) (member : string) (w : Walker) : Prop :=
  ~ In member (unusedNames c w).

(** What a traversal from [w] to [w'] has done when it has met [met]
    first: the read took the member out; or the alias is still bound. *)
Definition Outcome (c : Contract) (alias member : string) (met : option bool)
    (w w' : Walker) : Prop :=
  match met with
  | Some true => Bound c alias w -> Taken c member w'
  | Some false => True
  | None => Bound c alias w -> Bound c alias w'
  end.

(** An invariant together with what a visit has achieved. *)
Definition Both (Inv Post : Walker -> Prop) (w : Walker) : Prop :=
  Inv w /\ Post w.

(** ** Sample files *)

(** A file that declares [Props] twice, with a read in between:
<<
interface Props { a: string; }
function helper() { return this.props.a; }
interface Props { a: string; }
>> *)
Definition redeclaredFirst : Node :=
  Syntax.interface 0 30 "Props" [Syntax.propertySignature 18 "a"].

Definition redeclaredUse : Node :=
  Syntax.group 31 "function helper() { return this.props.a; }"
    [Syntax.identifier 40 "helper";
     Syntax.group 49 "{ return this.props.a; }" [Syntax.canonicalRead 58 "props" "a"]].

Definition redeclaredSecond : Node :=
  Syntax.interface 74 30 "Props" [Syntax.propertySignature 92 "a"].

(** A Props interface with the members [a] and [b], and a class whose
    [render] reads [this.props.a]. *)
Definition sampleProps : Node :=
  Syntax.interface 0 50 "Props"
    [Syntax.propertySignature 18 "a"; Syntax.propertySignature 30 "b"].

Definition sampleClass : Node :=
  Syntax.classDeclaration 60 100 "C"
    [Syntax.method 70 40 "render" []
       [Syntax.group 80 "this.props.a;" [Syntax.canonicalRead 80 "props" "a"]]].




(** A class that hands [this.props] to a function and then declares a
    local interface named Props:
<<
interface Props { a: string; }
class C { m() { keep(this.props); interface Props { a: string; } } }
>> *)
Definition escapeThenDeclare : Node :=
  Syntax.classDeclaration 31 70 "C"
    [Syntax.method 41 58 "m" []
       [Syntax.group 47 "keep(this.props);"
          [Syntax.call (Syntax.identifier 47 "keep") (Syntax.thisDot 52 "props")];
        Syntax.interface 65 30 "Props" [Syntax.propertySignature 83 "a"]]].

(** A class inside a method of a scanned class hands [this.props] on:
<<
interface Props { a: string; }
class A { m() { class B { n() { keep(this.props); } } } }
>> *)
Definition escapeInInnerClass : Node :=
  Syntax.classDeclaration 31 70 "A"
    [Syntax.method 41 58 "m" []
       [Syntax.classDeclaration 47 50 "B"
          [Syntax.method 57 30 "n" []
             [Syntax.group 63 "keep(this.props);"
                [Syntax.call (Syntax.identifier 63 "keep") (Syntax.thisDot 68 "props")]]]]].

(** A class whose constructor hands [this.props] to [super]:
<<
interface Props { a: string; }
class C { constructor() { super(this.props); } }
>> *)
Definition superWithProps : Node :=
  Syntax.classDeclaration 31 60 "C"
    [Syntax.constructorDeclaration 41 40 []
       [Syntax.group 57 "super(this.props);"
          [Syntax.call (Syntax.token 57 "super") (Syntax.thisDot 63 "props")]]].

(** A lifecycle method that hands its state parameter to [super]:
<<
interface State { y: string; }
class C { componentDidUpdate(prevProps, prevState) { super(prevState); } }
>> *)
Definition stateInterface : Node :=
  Syntax.interface 0 30 "State" [Syntax.propertySignature 18 "y"].



(** A class whose [componentDidUpdate] reads [prevState.y]:
<<
class C { componentDidUpdate(prevProps, prevState) { prevState.y; } }
>> *)
Definition didUpdateMethod : Node :=
  Syntax.method 41 70 "componentDidUpdate"
    [Syntax.parameter 60 "prevProps"; Syntax.parameter 71 "prevState"]
    [Syntax.group 90 "prevState.y;" [Syntax.aliasRead 90 "prevState" "y"]].

(** The same method with a method declared in an object literal before
    the read:
<<
interface State { y: string; }
class C { componentDidUpdate(prevProps, prevState) { const o = { m() {} }; this.v = prevState.y; } }
>> *)
Definition didUpdateWithMethod : Node :=
  Syntax.method 41 90 "componentDidUpdate"
    [Syntax.parameter 60 "prevProps"; Syntax.parameter 71 "prevState"]
    [Syntax.group 84 "const o = { m() {} };"
       [Syntax.identifier 90 "o";
        Syntax.group 94 "{ m() {} }" [Syntax.method 96 6 "m" [] []]];
     Syntax.group 106 "this.v = prevState.y;"
       [Syntax.thisDot 106 "v"; Syntax.aliasRead 115 "prevState" "y"]].

Definition didUpdateClass (method : Node) : Node :=
  Syntax.classDeclaration 31 110 "C" [method].

(** A constructor that declares a method in an object literal before it
    reads through its parameter, and the same with the canonical read:
<<
interface Props { x: string; }
class C { constructor(props) { super(props); const o = { m() {} }; this.v = props.x; } }
>> *)
Definition propsX : Node :=
  Syntax.interface 0 30 "Props" [Syntax.propertySignature 18 "x"].

Definition constructorWith (read : Node) : Node :=
  Syntax.classDeclaration 31 100 "C"
    [Syntax.constructorDeclaration 41 88 [Syntax.parameter 53 "props"]
       [Syntax.group 62 "super(props);"
          [Syntax.call (Syntax.token 62 "super") (Syntax.identifier 68 "props")];
        Syntax.group 76 "const o = { m() {} };"
          [Syntax.identifier 82 "o";
           Syntax.group 86 "{ m() {} }" [Syntax.method 88 6 "m" [] []]];
        Syntax.group 98 "this.v = props.x;"
          [Syntax.thisDot 98 "v"; read]]].

(** A constructor whose body reads through its parameter and declares no
    method:
<<
constructor(alias) { super(alias); this.v = alias.member; }
>> *)
Definition constructorReading (alias member : string) : Node :=
  Syntax.constructorDeclaration 41 60 [Syntax.parameter 53 alias]
    [Syntax.group 62 ("super(" ++ alias ++ ");")
       [Syntax.call (Syntax.token 62 "super") (Syntax.identifier 68 alias)];
     Syntax.group 76 ("this.v = " ++ alias ++ "." ++ member ++ ";")
       [Syntax.thisDot 76 "v"; Syntax.aliasRead 85 alias member]].

(** A class that reads [x] through the parameter of its constructor:
<<
interface Props { x: string; }
class C { constructor(alias) { super(alias); this.v = alias.x; } }
>> *)
Definition classReadingThrough (alias : string) : Node :=
  Syntax.classDeclaration 31 80 "C" [constructorReading alias "x"].

(** A second Props interface inside a class that a scanned class holds,
    and one inside a scanned class after a first that has no member:
<<
interface Props { a: string; }
class A { m() { class B { n() { interface Props { z: string; } } } } }
>>
<<
interface Props { }
class C { m() { interface Props { z: string; } } }
>> *)
Definition secondInInnerClass : Node :=
  Syntax.classDeclaration 31 80 "A"
    [Syntax.method 41 68 "m" []
       [Syntax.classDeclaration 47 60 "B"
          [Syntax.method 57 48 "n" []
             [Syntax.interface 63 30 "Props" [Syntax.propertySignature 81 "z"]]]]].

Definition emptyProps : Node := Syntax.interface 0 19 "Props" [].

Definition secondInClass : Node :=
  Syntax.classDeclaration 31 60 "C"
    [Syntax.method 41 48 "m" []
       [Syntax.interface 47 30 "Props" [Syntax.propertySignature 65 "z"]]].

(** ** Further properties of walkers and of nodes *)

(** Each unused set lists keys of its member map, in the order of the
    keys, and the map has every key once. *)
Definition Listed (w : Walker) : Prop :=
  Shrinks (propNames w) (JsObject.keys (propNodes w))
  /\ Shrinks (stateNames w) (JsObject.keys (stateNodes w))
  /\ NoDup (map fst (propNodes w))
  /\ NoDup (map fst (stateNodes w)).

(** The member map of a contract. *)
Definition memberNodes (c : Contract) (w : Walker) : JsObject.t :=
  match c with
  | PropsContract => propNodes w
  | StateContract => stateNodes w
  end.

(** The canonical read [this.props.member] ([this.state.member]). *)
Definition readsCanonical (c : Contract) (member : string)
    (parent : Parent) (node : Node) : bool :=
  SyntaxKind_eqb (kind node) PropertyAccessExpression
  && String.eqb (getText node) (canonicalRoot c ++ "." ++ member).

(** A node for which the rule has no hook, or an identifier. *)
Definition hookless (parent : Parent) (node : Node) : bool :=
  match kind node with
  | Identifier | TypeMember | ParameterDeclaration | CallExpression | OtherKind => true
  | _ => false
  end.

(** [ok] holds of [node] and of every node below it that lies outside
    the class declarations: of the nodes the first phase walks. *)
Fixpoint outsideClasses (ok : Parent -> Node -> bool) (parent : Parent) (node : Node)
    {struct node} : bool :=
  isClassDeclaration node
  || (ok parent node
      && forallb (fun child => outsideClasses ok (ParentNode node) child) (children node)).

(** The file with the class declarations among its statements blanked
    out: the other nodes keep their offsets. *)
Definition withoutClasses (sourceFile : SourceFileNode) : SourceFileNode :=
  mkSourceFile (languageVariant sourceFile)
               (filter (fun node => negb (isClassDeclaration node))
                       (statements sourceFile)).

(** ** Proofs: the traversal *)

(** Induction on a node with the property at hand for all its children. *)
Lemma Node_children_ind (P : Node -> Prop) :
  (forall d s wd t cs, Forall P cs -> P (mkNode d s wd t cs)) ->
  forall n, P n.
Proof.
  intros step. fix IH 1. intros [d s wd t cs]. apply step.
  revert cs. fix IHcs 1. intros [|c cs]; constructor; [apply IH | apply IHcs].
Qed.

Lemma visitNode_unfold (w : Walker) (parent : Parent) (node : Node) :
  visitNode w parent node =
  if isClassDeclaration node then visitClassDeclaration w node
  else leave node (walkChildren (enter w parent node) node).
Proof.
  destruct node as [d s wd t cs]; destruct d; reflexivity.
Qed.

Lemma isClassDeclaration_kind (node : Node) :
  isClassDeclaration node = true <-> kind node = ClassDeclaration.
Proof.
  unfold isClassDeclaration; destruct (kind node); simpl; split; congruence.
Qed.

Lemma everywhere_unfold ok parent node :
  everywhere ok parent node =
  ok parent node && forallb (everywhere ok (ParentNode node)) (children node).
Proof. destruct node; reflexivity. Qed.

Lemma reaches_unfold hit parent node :
  reaches hit parent node =
  negb (isClassDeclaration node)
  && (hit parent node || existsb (reaches hit (ParentNode node)) (children node)).
Proof. destruct node; reflexivity. Qed.

Lemma classesOf_unfold node :
  classesOf node =
  if isClassDeclaration node then [node] else flat_map classesOf (children node).
Proof. destruct node; reflexivity. Qed.

(** A property of the walker that every hook keeps is kept by a visit. *)
Section Invariant.
Variable Inv : Walker -> Prop.
Variable ok : Parent -> Node -> bool.
Hypothesis Inv_enter :
  forall w p n, ok p n = true -> isClassDeclaration n = false ->
                Inv w -> Inv (enter w p n).
Hypothesis Inv_leave :
  forall w p n, ok p n = true -> Inv w -> Inv (leave n w).
Hypothesis Inv_class :
  forall w p n, everywhere ok p n = true -> isClassDeclaration n = true ->
                Inv w -> Inv (visitClassDeclaration w n).

Lemma visitNode_invariant :
  forall n p w, everywhere ok p n = true -> Inv w -> Inv (visitNode w p n).
Proof.
  induction n as [d s wd t cs IH] using Node_children_ind.
  intros p w Hok Hw.
  rewrite visitNode_unfold.
  destruct (isClassDeclaration _) eqn:Hc.
  - now apply (Inv_class w p).
  - rewrite everywhere_unfold in Hok.
    apply andb_true_iff in Hok as [Hhere Hbelow].
    apply (Inv_leave _ p); [assumption|].
    unfold walkChildren.
    remember (mkNode d s wd t cs) as node eqn:Hnode.
    assert (Hstart : Inv (enter w p node)) by now apply Inv_enter.
    replace (children node) with cs in * by now subst node.
    clear Hnode Hw Hhere Hc.
    revert Hbelow Hstart. generalize (enter w p node) as w0.
    induction IH as [|c cs' Hc _ IHcs]; intros w0 Hbelow Hstart; simpl.
    + assumption.
    + simpl in Hbelow. apply andb_true_iff in Hbelow as [H1 H2].
      apply IHcs; [assumption|]. now apply Hc.
Qed.

Lemma visitList_invariant :
  forall l p w, forallb (everywhere ok p) l = true -> Inv w ->
                Inv (fold_left (fun acc child => visitNode acc p child) l w).
Proof.
  induction l as [|c l IH]; intros p w Hl Hw; simpl; [assumption|].
  simpl in Hl. apply andb_true_iff in Hl as [H1 H2].
  apply IH; [assumption|]. now apply visitNode_invariant.
Qed.

Lemma walkChildren_invariant :
  forall n w, forallb (everywhere ok (ParentNode n)) (children n) = true ->
              Inv w -> Inv (walkChildren w n).
Proof. intros n w; apply visitList_invariant. Qed.

End Invariant.

(** Once a visit has come to a node that sets up [Post], and nothing later
    undoes it, [Post] holds at the end. *)
Section Reach.
Variable Inv : Walker -> Prop.
Variable ok : Parent -> Node -> bool.
Hypothesis Inv_enter :
  forall w p n, ok p n = true -> isClassDeclaration n = false ->
                Inv w -> Inv (enter w p n).
Hypothesis Inv_leave :
  forall w p n, ok p n = true -> Inv w -> Inv (leave n w).
Hypothesis Inv_class :
  forall w p n, everywhere ok p n = true -> isClassDeclaration n = true ->
                Inv w -> Inv (visitClassDeclaration w n).
Variable hit : Parent -> Node -> bool.
Variable Post : Walker -> Prop.
Hypothesis Post_hit :
  forall w p n, ok p n = true -> hit p n = true -> isClassDeclaration n = false ->
                Inv w -> Post (enter w p n).
Hypothesis Post_enter :
  forall w p n, ok p n = true -> isClassDeclaration n = false ->
                Inv w -> Post w -> Post (enter w p n).
Hypothesis Post_leave :
  forall w p n, ok p n = true -> Inv w -> Post w -> Post (leave n w).
Hypothesis Post_class :
  forall w n, isClassDeclaration n = true ->
              Inv w -> Post w -> Post (visitClassDeclaration w n).

Lemma visitNode_keeps :
  forall n p w, everywhere ok p n = true -> Both Inv Post w -> Both Inv Post (visitNode w p n).
Proof.
  apply (visitNode_invariant (Both Inv Post) ok); unfold Both.
  - intros w p n Hok Hc [Hi Hp]; split; [now apply Inv_enter | now apply Post_enter].
  - intros w p n Hok [Hi Hp]; split; [now apply (Inv_leave w p) | now apply (Post_leave w p)].
  - intros w p n Hok Hc [Hi Hp]; split; [now apply (Inv_class w p) | now apply Post_class].
Qed.

Lemma visitList_keeps :
  forall l p w, forallb (everywhere ok p) l = true -> Both Inv Post w ->
                Both Inv Post (fold_left (fun acc child => visitNode acc p child) l w).
Proof.
  induction l as [|c l IH]; intros p w Hl Hw; simpl; [assumption|].
  simpl in Hl. apply andb_true_iff in Hl as [H1 H2].
  apply IH; [assumption|]. now apply visitNode_keeps.
Qed.

Lemma visitNode_reaches :
  forall n p w, everywhere ok p n = true -> reaches hit p n = true ->
                Inv w -> Post (visitNode w p n).
Proof.
  induction n as [d s wd t cs IH] using Node_children_ind.
  intros p w Hok Hreach Hw.
  rewrite visitNode_unfold.
  rewrite reaches_unfold in Hreach.
  apply andb_true_iff in Hreach as [Hc Hreach].
  apply negb_true_iff in Hc. rewrite Hc.
  rewrite everywhere_unfold in Hok.
  apply andb_true_iff in Hok as [Hhere Hbelow].
  remember (mkNode d s wd t cs) as node eqn:Hnode.
  assert (Hin : Inv (enter w p node)) by now apply Inv_enter.
  replace (children node) with cs in * by now subst node.
  unfold walkChildren. replace (children node) with cs by now subst node.
  apply orb_true_iff in Hreach as [Hhit | Hsub].
  - assert (Hb : Both Inv Post (enter w p node)) by (split; [assumption | now apply Post_hit]).
    pose proof (visitList_keeps cs (ParentNode node) _ Hbelow Hb) as [Hi' Hp'].
    now apply (Post_leave _ p).
  - assert (Hgoal : Both Inv Post (fold_left (fun acc child => visitNode acc (ParentNode node) child)
                                    cs (enter w p node))).
    { clear Hnode Hw Hhere Hc.
      revert Hbelow Hsub Hin. generalize (enter w p node) as w0.
      induction IH as [|c cs' Hcstep _ IHcs]; intros w0 Hbelow Hsub Hin; simpl in *.
      - discriminate.
      - apply andb_true_iff in Hbelow as [H1 H2].
        apply orb_true_iff in Hsub as [Hfirst | Hlater].
        + apply visitList_keeps; [assumption|].
          split.
          * now apply (visitNode_invariant Inv ok Inv_enter Inv_leave Inv_class).
          * now apply Hcstep.
        + apply IHcs; try assumption.
          now apply (visitNode_invariant Inv ok Inv_enter Inv_leave Inv_class). }
    destruct Hgoal as [Hi' Hp'].
    now apply (Post_leave _ p).
Qed.

Lemma visitList_reaches :
  forall l p w, forallb (everywhere ok p) l = true ->
                existsb (reaches hit p) l = true ->
                Inv w -> Both Inv Post (fold_left (fun acc child => visitNode acc p child) l w).
Proof.
  induction l as [|c l IH]; intros p w Hl Hr Hw; simpl in *; [discriminate|].
  apply andb_true_iff in Hl as [H1 H2].
  apply orb_true_iff in Hr as [Hfirst | Hlater].
  - apply visitList_keeps; [assumption|]. split.
    + now apply (visitNode_invariant Inv ok Inv_enter Inv_leave Inv_class).
    + now apply visitNode_reaches.
  - apply IH; try assumption.
    now apply (visitNode_invariant Inv ok Inv_enter Inv_leave Inv_class).
Qed.

(** The second phase: the queued classes, one after the other. *)
Lemma scan_invariant :
  forall l w,
    (forall c, In c l -> forallb (everywhere ok (ParentNode c)) (children c) = true) ->
    Inv w -> Inv (fold_left walkChildren l w).
Proof.
  induction l as [|c l IH]; intros w Hl Hw; simpl; [assumption|].
  apply IH; [intros c' Hc'; apply Hl; now right|].
  apply (walkChildren_invariant Inv ok Inv_enter Inv_leave Inv_class);
    [apply Hl; now left | assumption].
Qed.

Lemma scan_keeps :
  forall l w,
    (forall c, In c l -> forallb (everywhere ok (ParentNode c)) (children c) = true) ->
    Both Inv Post w -> Both Inv Post (fold_left walkChildren l w).
Proof.
  induction l as [|c l IH]; intros w Hl Hw; simpl; [assumption|].
  apply IH; [intros c' Hc'; apply Hl; now right|].
  apply visitList_keeps; [apply Hl; now left | assumption].
Qed.

Lemma scan_reaches :
  forall l w,
    (forall c, In c l -> forallb (everywhere ok (ParentNode c)) (children c) = true) ->
    (exists c, In c l /\ existsb (reaches hit (ParentNode c)) (children c) = true) ->
    Inv w -> Inv (fold_left walkChildren l w) /\ Post (fold_left walkChildren l w).
Proof.
  induction l as [|c l IH]; intros w Hl [c0 [Hin Hreach]] Hw; [destruct Hin|].
  simpl. destruct Hin as [-> | Hin].
  - apply scan_keeps; [intros c' Hc'; apply Hl; now right|].
    apply visitList_reaches; [apply Hl; now left | assumption | assumption].
  - apply IH; [intros c' Hc'; apply Hl; now right | now exists c0 |].
    apply (walkChildren_invariant Inv ok Inv_enter Inv_leave Inv_class);
      [apply Hl; now left | assumption].
Qed.

End Reach.

Lemma everywhere_true (n : Node) :
  forall p, everywhere (fun _ _ => true) p n = true.
Proof.
  induction n as [d s wd t cs IH] using Node_children_ind.
  intros p. rewrite everywhere_unfold. simpl.
  generalize (ParentNode (mkNode d s wd t cs)) as q. intros q.
  induction IH as [|c cs' Hc _ IHcs]; simpl; [reflexivity|].
  now rewrite Hc, IHcs.
Qed.

Lemma everywhere_true_list (l : list Node) (p : Parent) :
  forallb (everywhere (fun _ _ => true) p) l = true.
Proof.
  induction l as [|c l IH]; simpl; [reflexivity|].
  now rewrite everywhere_true, IH.
Qed.

(** ** Proofs: objects *)

Module JsObjectFacts.
Import JsObject.

Lemma get_put_same o k v : get (put o k v) k = Some v.
Proof.
  induction o as [|[k' v'] o IH]; simpl.
  - now rewrite String.eqb_refl.
  - destruct (String.eqb k' k) eqn:E; simpl; rewrite E; [reflexivity | exact IH].
Qed.

Lemma get_put_other o k v k' : k <> k' -> get (put o k v) k' = get o k'.
Proof.
  intros Hne. induction o as [|[k0 v0] o IH]; simpl.
  - destruct (String.eqb k k') eqn:E; [apply String.eqb_eq in E; contradiction | reflexivity].
  - destruct (String.eqb k0 k) eqn:E; simpl.
    + apply String.eqb_eq in E; subst k0.
      destruct (String.eqb k k') eqn:E'; [apply String.eqb_eq in E'; contradiction | reflexivity].
    + destruct (String.eqb k0 k'); [reflexivity | exact IH].
Qed.

Lemma in_put o k v x :
  In x (map fst (put o k v)) <-> x = k \/ In x (map fst o).
Proof.
  induction o as [|[k' v'] o IH]; simpl.
  - intuition.
  - destruct (String.eqb k' k) eqn:E; simpl.
    + apply String.eqb_eq in E; subst k'. intuition.
    + rewrite IH. intuition.
Qed.

Lemma NoDup_put o k v : NoDup (map fst o) -> NoDup (map fst (put o k v)).
Proof.
  induction o as [|[k' v'] o IH]; simpl; intros Hnd.
  - constructor; [intros [] | constructor].
  - inversion Hnd as [|? ? Hnotin Hrest]; subst.
    destruct (String.eqb k' k) eqn:E; simpl.
    + now constructor.
    + constructor; [|now apply IH].
      rewrite in_put. intros [-> | Hin]; [|contradiction].
      now rewrite String.eqb_refl in E.
Qed.

Lemma in_get o k : In k (map fst o) <-> exists v, get o k = Some v.
Proof.
  induction o as [|[k' v'] o IH]; simpl.
  - split; [intros [] | intros [v Hv]; discriminate].
  - destruct (String.eqb k' k) eqn:E.
    + apply String.eqb_eq in E; subst k'. split; [eauto | auto].
    + rewrite <- IH. split; [|auto].
      intros [-> | Hin]; [|assumption].
      now rewrite String.eqb_refl in E.
Qed.

Lemma in_insertIndex n k l x :
  In x (insertIndex n k l) <-> x = (n, k) \/ In x l.
Proof.
  induction l as [|[m k'] l IH]; simpl; [intuition|].
  destruct (n <=? m)%N; simpl; [intuition|].
  rewrite IH. intuition.
Qed.

Lemma NoDup_insertIndex n k l :
  ~ In k (map snd l) -> NoDup (map snd l) -> NoDup (map snd (insertIndex n k l)).
Proof.
  induction l as [|[m k'] l IH]; simpl; intros Hnotin Hnd.
  - constructor; [intros [] | constructor].
  - destruct (n <=? m)%N; simpl.
    + now constructor.
    + inversion Hnd as [|? ? Hk' Hrest]; subst.
      constructor.
      * rewrite in_map_iff. intros [[m0 k0] [Heq Hin]]. simpl in Heq; subst k0.
        apply in_insertIndex in Hin as [Hin | Hin].
        -- inversion Hin; subst. apply Hnotin; now left.
        -- apply Hk'. apply in_map_iff. now exists (m0, k').
      * apply IH; [|assumption]. intros Hin; apply Hnotin; now right.
Qed.

Lemma in_indexKeys o k :
  In k (map snd (indexKeys o)) <-> In k (map fst o) /\ arrayIndex k <> None.
Proof.
  induction o as [|[k' v'] o IH]; simpl.
  - intuition.
  - destruct (arrayIndex k') as [n|] eqn:E.
    + rewrite in_map_iff. split.
      * intros [[m k0] [Heq Hin]]. simpl in Heq; subst k0.
        apply in_insertIndex in Hin as [Hin | Hin].
        -- inversion Hin; subst. split; [now left | congruence].
        -- assert (Hk : In k (map snd (indexKeys o)))
             by (apply in_map_iff; now exists (m, k)).
           apply IH in Hk as [H1 H2]. split; [now right | assumption].
      * intros [[-> | Hin] Hidx].
        -- exists (n, k). split; [reflexivity|]. apply in_insertIndex; now left.
        -- assert (Hk : In k (map snd (indexKeys o))) by (apply IH; now split).
           apply in_map_iff in Hk as [[m k0] [Heq Hin']]. simpl in Heq; subst k0.
           exists (m, k). split; [reflexivity|]. apply in_insertIndex; now right.
    + rewrite IH. split.
      * intros [H1 H2]; split; [now right | assumption].
      * intros [[-> | Hin] Hidx]; [congruence | now split].
Qed.

Lemma in_nameKeys o k :
  In k (nameKeys o) <-> In k (map fst o) /\ arrayIndex k = None.
Proof.
  induction o as [|[k' v'] o IH]; simpl.
  - intuition.
  - destruct (arrayIndex k') as [n|] eqn:E; simpl.
    + rewrite IH. split.
      * intros [H1 H2]; split; [now right | assumption].
      * intros [[-> | Hin] Hidx]; [congruence | now split].
    + rewrite IH. split.
      * intros [-> | [H1 H2]]; split; auto.
      * intros [[-> | Hin] Hidx]; [now left | right; now split].
Qed.

Lemma in_keys o k : In k (keys o) <-> In k (map fst o).
Proof.
  unfold keys. rewrite in_app_iff, in_indexKeys, in_nameKeys.
  destruct (arrayIndex k); split; intuition congruence.
Qed.

Lemma NoDup_indexKeys o : NoDup (map fst o) -> NoDup (map snd (indexKeys o)).
Proof.
  induction o as [|[k' v'] o IH]; simpl; intros Hnd; [constructor|].
  inversion Hnd as [|? ? Hnotin Hrest]; subst.
  destruct (arrayIndex k'); [|now apply IH].
  apply NoDup_insertIndex; [|now apply IH].
  rewrite in_indexKeys. intros [Hin _]. contradiction.
Qed.

Lemma NoDup_nameKeys o : NoDup (map fst o) -> NoDup (nameKeys o).
Proof.
  induction o as [|[k' v'] o IH]; simpl; intros Hnd; [constructor|].
  inversion Hnd as [|? ? Hnotin Hrest]; subst.
  destruct (arrayIndex k'); [now apply IH|].
  constructor; [|now apply IH].
  rewrite in_nameKeys. intros [Hin _]. contradiction.
Qed.

Lemma NoDup_keys o : NoDup (map fst o) -> NoDup (keys o).
Proof.
  intros Hnd. unfold keys.
  apply NoDup_app; [now apply NoDup_indexKeys | now apply NoDup_nameKeys |].
  intros k H1 H2.
  apply in_indexKeys in H1 as [_ H1]. apply in_nameKeys in H2 as [_ H2].
  contradiction.
Qed.

Lemma keys_get o k : In k (keys o) <-> exists v, get o k = Some v.
Proof. rewrite in_keys. apply in_get. Qed.

End JsObjectFacts.

(** ** Proofs: declared members *)

Import JsObjectFacts.

Lemma getTypeElementData_fold (node : Node) :
  getTypeElementData node = fold_left collectMember (members node) JsObject.empty.
Proof. reflexivity. Qed.

Lemma collectMembers_NoDup (ms : list Node) :
  forall o, NoDup (map fst o) -> NoDup (map fst (fold_left collectMember ms o)).
Proof.
  induction ms as [|m ms IH]; intros o Hnd; simpl; [assumption|].
  apply IH. unfold collectMember.
  destruct (typeElementNameText m) as [k|]; [|assumption].
  unfold JsObject.set. destruct (String.eqb k "__proto__"); [assumption|].
  now apply NoDup_put.
Qed.

Lemma collectMembers_entries (ms : list Node) :
  forall o k te,
    JsObject.get (fold_left collectMember ms o) k = Some te ->
    JsObject.get o k = Some te
    \/ (In te ms /\ typeElementNameText te = Some k /\ k <> "__proto__").
Proof.
  induction ms as [|m ms IH]; intros o k te Hget; simpl in *; [now left|].
  apply IH in Hget as [Hget | (Hin & Hname & Hproto)].
  - unfold collectMember in Hget.
    destruct (typeElementNameText m) as [k'|] eqn:Hm; [|now left].
    unfold JsObject.set in Hget.
    destruct (String.eqb k' "__proto__") eqn:Hp; [now left|].
    destruct (string_dec k' k) as [-> | Hne].
    + rewrite get_put_same in Hget. inversion Hget; subst m.
      right. repeat split; [now left | assumption |].
      intros ->. now rewrite String.eqb_refl in Hp.
    + rewrite get_put_other in Hget by assumption. now left.
  - right. repeat split; [now right | assumption | assumption].
Qed.

Lemma getTypeElementData_NoDup (node : Node) :
  NoDup (map fst (getTypeElementData node)).
Proof. apply collectMembers_NoDup. constructor. Qed.

Lemma getTypeElementData_entry (node : Node) (k : string) (te : Node) :
  JsObject.get (getTypeElementData node) k = Some te ->
  In te (members node) /\ typeElementNameText te = Some k /\ k <> "__proto__".
Proof.
  intros Hget. apply collectMembers_entries in Hget as [Hget | H]; [discriminate | exact H].
Qed.

Lemma in_Utils_remove (l : list string) (e x : string) :
  In x (Utils_remove l e) <-> In x l /\ x <> e.
Proof.
  unfold Utils_remove. rewrite filter_In, negb_true_iff, String.eqb_neq. tauto.
Qed.

Lemma Declared_declareContracts w n : Declared w -> Declared (declareContracts w n).
Proof.
  intros [Hp Hs]. unfold declareContracts.
  destruct (String.eqb (interfaceName n) "Props");
    destruct (String.eqb (interfaceName n) "State"); split; simpl;
    try assumption; intros x Hx; now apply keys_get.
Qed.

Lemma Declared_accessProperty w p n : Declared w -> Declared (accessProperty w p n).
Proof.
  assert (Hprops : forall w v, Declared w ->
            (forall x, In x v -> In x (propNames w)) -> Declared (set_propNames w v)).
  { intros w0 v [Hp Hs] Hsub; split; simpl; auto. }
  assert (Hstate : forall w v, Declared w ->
            (forall x, In x v -> In x (stateNames w)) -> Declared (set_stateNames w v)).
  { intros w0 v [Hp Hs] Hsub; split; simpl; auto. }
  assert (Hrem : forall l e x, In x (Utils_remove l e) -> In x l).
  { intros l e x Hx. now apply in_Utils_remove in Hx. }
  intros Hw. unfold accessProperty, escapeCanonical.
  assert (H1 : Declared (readCanonical w (getText n))).
  { unfold readCanonical.
    destruct (JS.test thisPropsPattern _); [apply Hprops; eauto|].
    destruct (JS.test thisStatePattern _); [apply Hstate; eauto | assumption]. }
  assert (H2 : Declared (readPropsAlias (readCanonical w (getText n)) (getText n))).
  { unfold readPropsAlias. destruct (propsAlias _); [|assumption].
    destruct (JS.test _ _); [apply Hprops; eauto | assumption]. }
  set (w2 := readPropsAlias _ _) in *.
  assert (H3 : Declared (readStateAlias w2 (getText n))).
  { unfold readStateAlias. destruct (stateAlias _); [|assumption].
    destruct (JS.test _ _); [apply Hstate; eauto | assumption]. }
  destruct (negb _); [|assumption].
  destruct (String.eqb _ "this.props"); [apply Hprops; [assumption | intros x []]|].
  destruct (String.eqb _ "this.state"); [apply Hstate; [assumption | intros x []] | assumption].
Qed.

Lemma Declared_referIdentifier w p n : Declared w -> Declared (referIdentifier w p n).
Proof.
  intros Hw. unfold referIdentifier.
  assert (H1 : Declared (escapePropsAlias w p n)).
  { unfold escapePropsAlias. destruct (propsAlias w); [|assumption].
    destruct (_ && _); [|assumption].
    destruct Hw as [Hp Hs]; split; simpl; [intros x [] | assumption]. }
  unfold escapeStateAlias. destruct (stateAlias _); [|assumption].
  destruct (_ && _); [|assumption].
  destruct H1 as [Hp Hs]; split; simpl; [assumption | intros x []].
Qed.

Lemma Declared_enter w p n : Declared w -> Declared (enter w p n).
Proof.
  intros Hw. unfold enter. destruct (kind n); try assumption.
  - now apply Declared_declareContracts.
  - unfold enterConstructor. destruct (parameters n); assumption.
  - unfold enterMethod.
    destruct (parameters n) as [|a [|b l]]; try assumption;
      repeat (destruct (testAlternation _ _)); assumption.
  - now apply Declared_accessProperty.
  - now apply Declared_referIdentifier.
Qed.

Lemma Declared_leave w n : Declared w -> Declared (leave n w).
Proof. intros Hw. unfold leave. destruct (kind n); assumption. Qed.

Lemma Declared_visitNode n p w : Declared w -> Declared (visitNode w p n).
Proof.
  apply (visitNode_invariant Declared (fun _ _ => true)).
  - intros; now apply Declared_enter.
  - intros; now apply Declared_leave.
  - intros w0 p0 n0 _ _ Hw; exact Hw.
  - apply everywhere_true.
Qed.

Lemma Declared_collect sf w : Declared w -> Declared (collect w sf).
Proof.
  unfold collect. generalize (statements sf) as l.
  intros l; revert w. induction l as [|c l IH]; intros w Hw; simpl; [assumption|].
  apply IH. now apply Declared_visitNode.
Qed.

Lemma Declared_walkChildren n w : Declared w -> Declared (walkChildren w n).
Proof.
  unfold walkChildren. generalize (children n) as l.
  intros l; revert w. induction l as [|c l IH]; intros w Hw; simpl; [assumption|].
  apply IH. now apply Declared_visitNode.
Qed.

Lemma Declared_analyze w : Declared w -> Declared (analyze w).
Proof.
  intros Hw. unfold analyze. destruct (_ || _); [|assumption].
  generalize (classDeclarations w) as l.
  intros l; revert w Hw. induction l as [|c l IH]; intros w Hw; simpl; [assumption|].
  apply IH. now apply Declared_walkChildren.
Qed.

Lemma Declared_newWalker : Declared newWalker.
Proof. split; intros x []. Qed.

(** ** Proofs: the report *)

Lemma reportUnused_normal message nodes names :
  forall w,
    (forall x, In x names -> exists te, JsObject.get nodes x = Some te) ->
    exists fs, reportUnused message nodes names w = Normal (withFailures w fs)
               /\ Forall2 (reported message nodes) names fs.
Proof.
  induction names as [|name rest IH]; intros w Hdecl; simpl.
  - exists []. split; [|constructor].
    unfold withFailures. rewrite app_nil_r. now destruct w.
  - destruct (Hdecl name (or_introl eq_refl)) as [te Hte]. rewrite Hte.
    destruct (IH (addFailure w (createFailure (getStart te) (getWidth te) (message ++ name))))
      as [fs [Hrun Hfs]].
    { intros x Hx. apply Hdecl. now right. }
    exists (createFailure (getStart te) (getWidth te) (message ++ name) :: fs).
    split.
    + rewrite Hrun. unfold withFailures, addFailure. simpl.
      now rewrite <- app_assoc.
    + constructor; [|assumption]. now exists te.
Qed.

Lemma report_normal w :
  Declared w ->
  exists ps ss,
    report w = Normal (withFailures w (ps ++ ss))
    /\ Forall2 (reported FAILURE_UNUSED_PROP (propNodes w)) (propNames w) ps
    /\ Forall2 (reported FAILURE_UNUSED_STATE (stateNodes w)) (stateNames w) ss.
Proof.
  intros [Hp Hs]. unfold report.
  destruct (reportUnused_normal FAILURE_UNUSED_PROP (propNodes w) (propNames w) w Hp)
    as [ps [Hrun1 Hps]].
  rewrite Hrun1.
  destruct (reportUnused_normal FAILURE_UNUSED_STATE (stateNodes w) (stateNames w)
              (withFailures w ps) Hs) as [ss [Hrun2 Hss]].
  exists ps, ss. simpl. rewrite Hrun2. split; [|now split].
  unfold withFailures. simpl. now rewrite app_assoc.
Qed.

(** The traversal reports nothing: the failures are those of the report. *)
Lemma failures_enter w p n : failures (enter w p n) = failures w.
Proof.
  unfold enter. destruct (kind n); try reflexivity.
  - unfold declareContracts.
    destruct (String.eqb _ "Props"); destruct (String.eqb _ "State"); reflexivity.
  - unfold enterConstructor. destruct (parameters n); reflexivity.
  - unfold enterMethod.
    destruct (parameters n) as [|a [|b l]]; try reflexivity;
      repeat (destruct (testAlternation _ _)); reflexivity.
  - unfold accessProperty, escapeCanonical, readStateAlias, readPropsAlias, readCanonical.
    repeat match goal with
           | |- context [match ?x with _ => _ end] => destruct x; simpl
           end; reflexivity.
  - unfold referIdentifier, escapeStateAlias, escapePropsAlias.
    repeat match goal with
           | |- context [match ?x with _ => _ end] => destruct x; simpl
           end; reflexivity.
Qed.

Lemma failures_visitNode n p w : failures (visitNode w p n) = failures w.
Proof.
  apply (visitNode_invariant (fun w' => failures w' = failures w) (fun _ _ => true)).
  - intros w0 p0 n0 _ _ H. now rewrite failures_enter.
  - intros w0 p0 n0 _ H. unfold leave. destruct (kind n0); exact H.
  - intros w0 p0 n0 _ _ H. exact H.
  - apply everywhere_true.
  - reflexivity.
Qed.

Lemma failures_visitList l p w :
  failures (fold_left (fun acc child => visitNode acc p child) l w) = failures w.
Proof.
  revert w. induction l as [|c l IH]; intros w; simpl; [reflexivity|].
  now rewrite IH, failures_visitNode.
Qed.

Lemma failures_analyze w : failures (analyze w) = failures w.
Proof.
  unfold analyze. destruct (_ || _); [|reflexivity].
  generalize (classDeclarations w) as l. intros l. revert w.
  induction l as [|c l IH]; intros w; simpl; [reflexivity|].
  rewrite IH. apply failures_visitList.
Qed.

Lemma Rule_apply_JSX (sourceFile : SourceFileNode) :
  languageVariant sourceFile = JSX ->
  exists ps ss,
    Rule_apply sourceFile = Normal (ps ++ ss)
    /\ Forall2 (reported FAILURE_UNUSED_PROP (propNodes (analyzed sourceFile)))
               (propNames (analyzed sourceFile)) ps
    /\ Forall2 (reported FAILURE_UNUSED_STATE (stateNodes (analyzed sourceFile)))
               (stateNames (analyzed sourceFile)) ss.
Proof.
  intros Hjsx.
  assert (Hd : Declared (analyzed sourceFile)).
  { apply Declared_analyze, Declared_collect, Declared_newWalker. }
  destruct (report_normal _ Hd) as [ps [ss [Hrun [Hps Hss]]]].
  exists ps, ss. split; [|now split].
  unfold Rule_apply, Rule_apply_with, applyWithWalker, visitSourceFile.
  rewrite Hjsx. fold (analyzed sourceFile). rewrite Hrun. simpl.
  unfold analyzed. rewrite failures_analyze. unfold collect.
  now rewrite failures_visitList.
Qed.

(** ** C6: a file that is not JSX *)

(** C6.  For a source file whose language variant is not JSX the rule
    returns the empty list of findings, and it does so whatever traversal
    it is given: the traversal is not run. *)
Theorem C6_not_jsx_no_findings :
  forall (traverse : SourceFileNode -> Completion (list RuleFailure))
         (sourceFile : SourceFileNode),
    languageVariant sourceFile <> JSX ->
    Rule_apply_with traverse sourceFile = Normal []
    /\ Rule_apply sourceFile = Normal [].
Proof.
  intros traverse sourceFile Hnot.
  unfold Rule_apply, Rule_apply_with.
  destruct (languageVariant sourceFile); [now split | contradiction].
Qed.

Lemma C6_witness :
  languageVariant (mkSourceFile Standard [sampleProps; sampleClass]) <> JSX
  /\ Rule_apply (mkSourceFile Standard [sampleProps; sampleClass]) = Normal [].
Proof.
  split; [discriminate|].
  apply (C6_not_jsx_no_findings applyWithWalker
           (mkSourceFile Standard [sampleProps; sampleClass])).
  discriminate.
Defined.

(** ** C9: the analysis does not throw *)



(** ** Proofs: strings and patterns *)

Module JSFacts.
Import JS.
Local Arguments Ascii.eqb : simpl never.

Lemma literal_cons c s : literal (String c s) = Lit c :: literal s.
Proof. reflexivity. Qed.

Lemma literal_app a b : literal (a ++ b) = literal a ++ literal b.
Proof.
  induction a as [|c a IH]; simpl; [reflexivity|].
  rewrite !literal_cons, IH. reflexivity.
Qed.

Lemma interpolated_lacks s : lacks "$" s = true -> interpolated s = literal s.
Proof.
  unfold interpolated, literal.
  induction s as [|c s IH]; simpl; intros H; [reflexivity|].
  apply andb_true_iff in H as [Hc Hs]. apply negb_true_iff in Hc.
  rewrite Ascii.eqb_sym in Hc. rewrite Hc. now rewrite IH.
Qed.

Lemma matchHere_literal_app a q rest :
  matchHere (literal a ++ q) (a ++ rest) = matchHere q rest.
Proof.
  induction a as [|c a IH]; [reflexivity|].
  change (matchHere (Lit c :: (literal a ++ q)) (String c (a ++ rest))
          = matchHere q rest).
  simpl. now rewrite Ascii.eqb_refl, IH.
Qed.

Lemma matchHere_literal_prefix a rest : matchHere (literal a) (a ++ rest) = true.
Proof.
  rewrite <- (app_nil_r (literal a)). now rewrite matchHere_literal_app.
Qed.

Lemma test_here p s : matchHere p s = true -> test p s = true.
Proof. intros H. destruct s; simpl in *; now rewrite H. Qed.

Lemma test_skip p pre s : test p s = true -> test p (pre ++ s) = true.
Proof.
  intros H. induction pre as [|c pre IH]; simpl; [assumption|].
  rewrite IH. apply orb_true_r.
Qed.

(** A literal pattern is found in every text that contains it. *)
Lemma test_literal_substring h pre post :
  test (literal h) (pre ++ h ++ post) = true.
Proof. apply test_skip, test_here, matchHere_literal_prefix. Qed.

Lemma matchHere_literal_inv a s :
  matchHere (literal a) s = true -> exists rest, s = (a ++ rest)%string.
Proof.
  revert s. induction a as [|c a IH]; intros s H.
  - now exists s.
  - rewrite literal_cons in H. simpl in H.
    destruct s as [|d s]; [discriminate|].
    apply andb_true_iff in H as [Hc Hs]. apply Ascii.eqb_eq in Hc; subst d.
    destruct (IH s Hs) as [rest ->]. now exists rest.
Qed.

Lemma test_literal_inv a s :
  test (literal a) s = true -> exists pre post, s = (pre ++ a ++ post)%string.
Proof.
  induction s as [|d s IH]; simpl; intros H.
  - rewrite orb_false_r in H. apply matchHere_literal_inv in H as [rest Hrest].
    now exists EmptyString, rest.
  - apply orb_true_iff in H as [H | H].
    + apply matchHere_literal_inv in H as [rest Hrest].
      now exists EmptyString, rest.
    + destruct (IH H) as [pre [post ->]]. now exists (String d pre), post.
Qed.

Lemma occurrences_app c a b :
  occurrences c (a ++ b) = occurrences c a + occurrences c b.
Proof. induction a as [|d a IH]; simpl; [reflexivity | rewrite IH; lia]. Qed.

Lemma lacks_occurrences c s : lacks c s = true <-> occurrences c s = 0.
Proof.
  induction s as [|d s IH]; simpl; [tauto|].
  rewrite andb_true_iff, negb_true_iff, IH.
  destruct (Ascii.eqb c d); simpl; split; intros H;
    try lia; try tauto; destruct H; discriminate.
Qed.

Lemma test_literal_occurrences c a s :
  test (literal a) s = true -> occurrences c a <= occurrences c s.
Proof.
  intros H. apply test_literal_inv in H as [pre [post ->]].
  rewrite !occurrences_app. lia.
Qed.

(** A text [p.x] with one dot matches neither canonical pattern. *)
Lemma test_canonical_single_dot (carrier p x : string) :
  lacks "." p = true -> lacks "." x = true ->
  occurrences "." carrier = 2 ->
  test (literal carrier) (p ++ "." ++ x) = false.
Proof.
  intros Hp Hx Hc.
  destruct (test (literal carrier) (p ++ "." ++ x)) eqn:E; [|reflexivity].
  apply (test_literal_occurrences ".") in E.
  rewrite !occurrences_app in E.
  apply lacks_occurrences in Hp, Hx.
  change (occurrences "." ".") with 1 in E. lia.
Qed.

Lemma substring_app a b : substring (String.length a) (a ++ b) = b.
Proof. induction a as [|c a IH]; simpl; [now destruct b | exact IH]. Qed.

Lemma substring_after_dot p x :
  substring (String.length p + 1) (p ++ "." ++ x) = x.
Proof.
  induction p as [|c p IH]; simpl; [now destruct x | exact IH].
Qed.

(** The alias pattern matches the text of a read through the alias. *)
Lemma test_alias_read p x :
  lacks "$" p = true -> test (aliasPattern p) (p ++ "." ++ x) = true.
Proof.
  intros Hp. unfold aliasPattern. rewrite (interpolated_lacks p Hp).
  apply test_here. rewrite matchHere_literal_app.
  apply matchHere_literal_prefix.
Qed.

(** An alias with a [$] in it matches no text at all. *)
Lemma matchHere_dollar q : forall p s,
  matchHere (interpolated p ++ Lit "." :: q) s = true -> lacks "$" p = true.
Proof.
  induction p as [|c p IH]; intros s H; [reflexivity|].
  unfold interpolated in H. simpl in H. simpl.
  destruct (Ascii.eqb c "$") eqn:Ec.
  - exfalso. destruct s; [|discriminate].
    clear IH Ec. fold (interpolated p) in H.
    induction p as [|d p IHp]; simpl in H; [discriminate|].
    unfold interpolated in H. simpl in H. fold (interpolated p) in H.
    destruct (Ascii.eqb d "$"); [now apply IHp | discriminate].
  - destruct s as [|d s]; [discriminate|].
    apply andb_true_iff in H as [_ H]. fold (interpolated p) in H.
    rewrite Ascii.eqb_sym, Ec. simpl. now apply (IH s).
Qed.

Lemma test_alias_dollar p s : lacks "$" p = false -> test (aliasPattern p) s = false.
Proof.
  intros Hp. unfold aliasPattern. change (literal ".") with [Lit "."].
  induction s as [|d s IH]; simpl.
  - rewrite orb_false_r.
    destruct (matchHere _ _) eqn:E; [|reflexivity].
    apply matchHere_dollar in E. congruence.
  - rewrite IH, orb_false_r.
    destruct (matchHere _ _) eqn:E; [|reflexivity].
    apply matchHere_dollar in E. congruence.
Qed.

Lemma dotted_split p q x y :
  lacks "." p = true -> lacks "." q = true ->
  (p ++ "." ++ x = q ++ "." ++ y)%string -> p = q.
Proof.
  revert q. induction p as [|c p IH]; intros q Hp Hq Heq.
  - destruct q as [|d q]; [reflexivity|].
    simpl in Heq. inversion Heq; subst d.
    simpl in Hq. discriminate.
  - destruct q as [|d q].
    + simpl in Heq. inversion Heq; subst c. simpl in Hp. discriminate.
    + simpl in Heq. inversion Heq; subst d.
      simpl in Hp, Hq.
      apply andb_true_iff in Hp as [_ Hp]. apply andb_true_iff in Hq as [_ Hq].
      f_equal. now apply IH.
Qed.

End JSFacts.

(** ** Proofs: the unused sets shrink *)

Ltac case_if :=
  match goal with
  | |- context [if ?c then _ else _] => destruct c eqn:?
  end.

Lemma Shrinks_refl l : Shrinks l l.
Proof.
  exists (fun _ => true). induction l as [|x l IH]; simpl; [reflexivity | now rewrite <- IH].
Qed.

Lemma Shrinks_trans l1 l2 l3 : Shrinks l1 l2 -> Shrinks l2 l3 -> Shrinks l1 l3.
Proof.
  intros [f ->] [g ->]. exists (fun x => g x && f x).
  induction l3 as [|x l IH]; simpl; [reflexivity|].
  destruct (g x); simpl; [destruct (f x); now rewrite IH | exact IH].
Qed.

Lemma Shrinks_nil l : Shrinks [] l.
Proof.
  exists (fun _ => false). induction l as [|x l IH]; simpl; [reflexivity | exact IH].
Qed.

Lemma Shrinks_remove l e : Shrinks (Utils_remove l e) l.
Proof. now exists (fun x => negb (String.eqb x e)). Qed.

Lemma Shrinks_In l' l x : Shrinks l' l -> In x l' -> In x l.
Proof. intros [f ->] H. now apply filter_In in H. Qed.

Lemma Shrinks_NoDup l' l : Shrinks l' l -> NoDup l -> NoDup l'.
Proof. intros [f ->]. apply NoDup_filter. Qed.

Lemma ShrunkFrom_refl w : ShrunkFrom w w.
Proof. split; apply Shrinks_refl. Qed.

Lemma ShrunkFrom_trans w1 w2 w3 : ShrunkFrom w1 w2 -> ShrunkFrom w2 w3 -> ShrunkFrom w1 w3.
Proof. intros [A B] [C D]. split; eapply Shrinks_trans; eassumption. Qed.

Lemma ShrunkFrom_props w v : Shrinks v (propNames w) -> ShrunkFrom w (set_propNames w v).
Proof. intros H. split; simpl; [assumption | apply Shrinks_refl]. Qed.

Lemma ShrunkFrom_state w v : Shrinks v (stateNames w) -> ShrunkFrom w (set_stateNames w v).
Proof. intros H. split; simpl; [apply Shrinks_refl | assumption]. Qed.

Lemma ShrunkFrom_readCanonical w t : ShrunkFrom w (readCanonical w t).
Proof.
  unfold readCanonical.
  destruct (JS.test thisPropsPattern t); [apply ShrunkFrom_props, Shrinks_remove|].
  destruct (JS.test thisStatePattern t); [apply ShrunkFrom_state, Shrinks_remove|].
  apply ShrunkFrom_refl.
Qed.

Lemma ShrunkFrom_readPropsAlias w t : ShrunkFrom w (readPropsAlias w t).
Proof.
  unfold readPropsAlias. destruct (propsAlias w); [|apply ShrunkFrom_refl].
  destruct (JS.test _ t); [apply ShrunkFrom_props, Shrinks_remove | apply ShrunkFrom_refl].
Qed.

Lemma ShrunkFrom_readStateAlias w t : ShrunkFrom w (readStateAlias w t).
Proof.
  unfold readStateAlias. destruct (stateAlias w); [|apply ShrunkFrom_refl].
  destruct (JS.test _ t); [apply ShrunkFrom_state, Shrinks_remove | apply ShrunkFrom_refl].
Qed.

Lemma ShrunkFrom_escapeCanonical w p t : ShrunkFrom w (escapeCanonical w p t).
Proof.
  unfold escapeCanonical. destruct (negb _); [|apply ShrunkFrom_refl].
  destruct (String.eqb t "this.props"); [apply ShrunkFrom_props, Shrinks_nil|].
  destruct (String.eqb t "this.state"); [apply ShrunkFrom_state, Shrinks_nil|].
  apply ShrunkFrom_refl.
Qed.

Lemma ShrunkFrom_accessProperty w p n : ShrunkFrom w (accessProperty w p n).
Proof.
  unfold accessProperty.
  eapply ShrunkFrom_trans; [|apply ShrunkFrom_escapeCanonical].
  eapply ShrunkFrom_trans; [|apply ShrunkFrom_readStateAlias].
  eapply ShrunkFrom_trans; [|apply ShrunkFrom_readPropsAlias].
  apply ShrunkFrom_readCanonical.
Qed.

Lemma ShrunkFrom_referIdentifier w p n : ShrunkFrom w (referIdentifier w p n).
Proof.
  unfold referIdentifier.
  apply (ShrunkFrom_trans w (escapePropsAlias w p n)).
  - unfold escapePropsAlias. destruct (propsAlias w); [|apply ShrunkFrom_refl].
    case_if; [apply ShrunkFrom_props, Shrinks_nil | apply ShrunkFrom_refl].
  - unfold escapeStateAlias. destruct (stateAlias _); [|apply ShrunkFrom_refl].
    case_if; [apply ShrunkFrom_state, Shrinks_nil | apply ShrunkFrom_refl].
Qed.

Lemma ShrunkFrom_enterConstructor w n : ShrunkFrom w (enterConstructor w n).
Proof.
  unfold enterConstructor. destruct (parameters n); split; simpl; apply Shrinks_refl.
Qed.

Lemma ShrunkFrom_enterMethod w n : ShrunkFrom w (enterMethod w n).
Proof.
  unfold enterMethod.
  destruct (parameters n) as [|a [|b l]];
    repeat (destruct (testAlternation _ _)); split; simpl; apply Shrinks_refl.
Qed.

Lemma ShrunkFrom_leave w n : ShrunkFrom w (leave n w).
Proof. unfold leave. destruct (kind n); split; simpl; apply Shrinks_refl. Qed.

Lemma declareContracts_none w n :
  declares "Props" n = false -> declares "State" n = false ->
  kind n = InterfaceDeclaration -> declareContracts w n = w.
Proof.
  unfold declares, declareContracts, interfaceName, kind.
  destruct (data n); try discriminate.
  intros -> -> _. reflexivity.
Qed.

Lemma ShrunkFrom_enter w p n :
  declaresNoContract p n = true -> ShrunkFrom w (enter w p n).
Proof.
  intros Hno. apply andb_true_iff in Hno as [Hp Hs].
  apply negb_true_iff in Hp, Hs.
  unfold enter. destruct (kind n) eqn:Hk; try apply ShrunkFrom_refl.
  - rewrite declareContracts_none by assumption. apply ShrunkFrom_refl.
  - apply ShrunkFrom_enterConstructor.
  - apply ShrunkFrom_enterMethod.
  - apply ShrunkFrom_accessProperty.
  - apply ShrunkFrom_referIdentifier.
Qed.

Lemma ShrunkFrom_visitNode n p w :
  everywhere declaresNoContract p n = true -> ShrunkFrom w (visitNode w p n).
Proof.
  intros Hno.
  apply (visitNode_invariant (ShrunkFrom w) declaresNoContract); try assumption.
  - intros w0 p0 n0 Hok _ H.
    eapply ShrunkFrom_trans; [exact H | now apply ShrunkFrom_enter].
  - intros w0 p0 n0 _ H.
    eapply ShrunkFrom_trans; [exact H | apply ShrunkFrom_leave].
  - intros w0 p0 n0 _ _ H. exact H.
  - apply ShrunkFrom_refl.
Qed.

(** ** Proofs: aliases and the class queue *)

Lemma fold_children (P : Walker -> Prop) (cs : list Node) (q : Parent) :
  Forall (fun c => forall w p, P w -> P (visitNode w p c)) cs ->
  forall w, P w -> P (fold_left (fun acc child => visitNode acc q child) cs w).
Proof.
  induction 1 as [|c cs Hc _ IH]; intros w Hw; simpl; [assumption|].
  apply IH. now apply Hc.
Qed.

Lemma aliases_enter w p n :
  kind n <> Constructor -> kind n <> MethodDeclaration ->
  propsAlias (enter w p n) = propsAlias w /\ stateAlias (enter w p n) = stateAlias w.
Proof.
  intros Hc Hm. unfold enter. destruct (kind n); try (split; reflexivity); try congruence.
  - unfold declareContracts. repeat case_if; split; reflexivity.
  - destruct w.
    unfold accessProperty, escapeCanonical, readStateAlias, readPropsAlias, readCanonical.
    simpl.
    repeat match goal with
           | |- context [match ?x with _ => _ end] => destruct x; simpl
           end; split; reflexivity.
  - destruct w.
    unfold referIdentifier, escapeStateAlias, escapePropsAlias. simpl.
    repeat match goal with
           | |- context [match ?x with _ => _ end] => destruct x; simpl
           end; split; reflexivity.
Qed.

(** Between two statements, and between two members of a class, no alias
    is bound. *)
Lemma stateAlias_unbound n :
  forall w p, stateAlias w = None -> stateAlias (visitNode w p n) = None.
Proof.
  induction n as [d s wd t cs IH] using Node_children_ind.
  intros w p Hw. rewrite visitNode_unfold.
  case_if; [exact Hw|].
  remember (mkNode d s wd t cs) as node eqn:Hnode.
  assert (Hcs : children node = cs) by now subst node.
  assert (Hin : stateAlias (enter w p node) = None \/ kind node = MethodDeclaration).
  { destruct (kind node) eqn:Hk; try (now right);
      left; unfold enter; rewrite Hk; try assumption.
    - unfold declareContracts. repeat case_if; assumption.
    - unfold enterConstructor. destruct (parameters node); assumption.
    - assert (H' := aliases_enter w p node). unfold enter in H'. rewrite Hk in H'.
      destruct H' as [_ ->]; congruence.
    - assert (H' := aliases_enter w p node). unfold enter in H'. rewrite Hk in H'.
      destruct H' as [_ ->]; congruence. }
  destruct Hin as [Hin | Hm].
  - assert (Hwalk : stateAlias (walkChildren (enter w p node) node) = None).
    { unfold walkChildren. rewrite Hcs.
      apply (fold_children (fun w' => stateAlias w' = None)); [|assumption].
      eapply Forall_impl; [|exact IH]. intros c Hc w0 p0; apply Hc. }
    unfold leave. destruct (kind node); simpl; auto.
  - unfold leave. rewrite Hm. reflexivity.
Qed.

Lemma propsAlias_unbound n :
  forall w p, propsAlias w = None -> propsAlias (visitNode w p n) = None.
Proof.
  induction n as [d s wd t cs IH] using Node_children_ind.
  intros w p Hw. rewrite visitNode_unfold.
  case_if; [exact Hw|].
  remember (mkNode d s wd t cs) as node eqn:Hnode.
  assert (Hcs : children node = cs) by now subst node.
  destruct (SyntaxKind_eqb (kind node) Constructor) eqn:Hc;
    [unfold leave; destruct (kind node); try discriminate; reflexivity|].
  destruct (SyntaxKind_eqb (kind node) MethodDeclaration) eqn:Hm;
    [unfold leave; destruct (kind node); try discriminate; reflexivity|].
  assert (Hin : propsAlias (enter w p node) = None).
  { destruct (aliases_enter w p node) as [-> _]; try assumption;
      intros E; rewrite E in *; discriminate. }
  assert (Hwalk : propsAlias (walkChildren (enter w p node) node) = None).
  { unfold walkChildren. rewrite Hcs.
    apply (fold_children (fun w' => propsAlias w' = None)); [|assumption].
    eapply Forall_impl; [|exact IH]. intros c Hc' w0 p0; apply Hc'. }
  unfold leave. destruct (kind node); try assumption; discriminate.
Qed.

Lemma Unbound_visitNode n p w : Unbound w -> Unbound (visitNode w p n).
Proof.
  intros [Hp Hs]. split; [now apply propsAlias_unbound | now apply stateAlias_unbound].
Qed.

Lemma Unbound_visitList l p w :
  Unbound w -> Unbound (fold_left (fun acc child => visitNode acc p child) l w).
Proof.
  revert w. induction l as [|c l IH]; intros w Hw; simpl; [assumption|].
  apply IH. now apply Unbound_visitNode.
Qed.

(** The queue grows by the class declarations the visit comes to. *)
Lemma classDeclarations_enter w p n :
  classDeclarations (enter w p n) = classDeclarations w.
Proof.
  unfold enter. destruct (kind n); try reflexivity.
  - unfold declareContracts. repeat case_if; reflexivity.
  - unfold enterConstructor. destruct (parameters n); reflexivity.
  - unfold enterMethod.
    destruct (parameters n) as [|a [|b l]]; try reflexivity;
      repeat (destruct (testAlternation _ _)); reflexivity.
  - unfold accessProperty, escapeCanonical, readStateAlias, readPropsAlias, readCanonical.
    repeat match goal with
           | |- context [match ?x with _ => _ end] => destruct x; simpl
           end; reflexivity.
  - unfold referIdentifier, escapeStateAlias, escapePropsAlias.
    repeat match goal with
           | |- context [match ?x with _ => _ end] => destruct x; simpl
           end; reflexivity.
Qed.

Lemma classDeclarations_visitNode n :
  forall w p, classDeclarations (visitNode w p n) = classDeclarations w ++ classesOf n.
Proof.
  induction n as [d s wd t cs IH] using Node_children_ind.
  intros w p. rewrite visitNode_unfold, classesOf_unfold.
  case_if; [reflexivity|].
  remember (mkNode d s wd t cs) as node eqn:Hnode.
  assert (Hcs : children node = cs) by now subst node.
  assert (Hleave : forall w', classDeclarations (leave node w') = classDeclarations w').
  { intros w'. unfold leave. destruct (kind node); reflexivity. }
  rewrite Hleave. unfold walkChildren. rewrite Hcs.
  rewrite <- (classDeclarations_enter w p node).
  generalize (enter w p node) as w0. generalize (ParentNode node) as q.
  clear Hnode Hcs Hleave.
  induction IH as [|c cs' Hc _ IHcs]; intros q w0; simpl.
  - now rewrite app_nil_r.
  - rewrite IHcs, Hc. now rewrite <- app_assoc.
Qed.

Lemma classDeclarations_visitList l p :
  forall w, classDeclarations (fold_left (fun acc child => visitNode acc p child) l w)
            = classDeclarations w ++ flat_map classesOf l.
Proof.
  induction l as [|c l IH]; intros w; simpl; [now rewrite app_nil_r|].
  rewrite IH, classDeclarations_visitNode. now rewrite <- app_assoc.
Qed.

Lemma classDeclarations_collect sf :
  classDeclarations (collect newWalker sf) = scannedClasses sf.
Proof. unfold collect. now rewrite classDeclarations_visitList. Qed.

(** ** C7: when the unused sets shrink *)

Lemma ShrunkFrom_visitList l p w :
  forallb (everywhere declaresNoContract p) l = true ->
  ShrunkFrom w (fold_left (fun acc child => visitNode acc p child) l w).
Proof.
  revert w. induction l as [|c l IH]; intros w Hl; simpl; [apply ShrunkFrom_refl|].
  simpl in Hl. apply andb_true_iff in Hl as [H1 H2].
  eapply ShrunkFrom_trans; [|now apply IH]. now apply ShrunkFrom_visitNode.
Qed.

Lemma declareContracts_props w n :
  declares "Props" n = true ->
  propNodes (declareContracts w n) = getTypeElementData n
  /\ propNames (declareContracts w n) = JsObject.keys (getTypeElementData n).
Proof.
  unfold declares, declareContracts, interfaceName.
  destruct (data n); try discriminate. intros Hname. rewrite Hname.
  apply String.eqb_eq in Hname; subst name. simpl. split; reflexivity.
Qed.

Lemma declareContracts_state w n :
  declares "State" n = true ->
  stateNodes (declareContracts w n) = getTypeElementData n
  /\ stateNames (declareContracts w n) = JsObject.keys (getTypeElementData n).
Proof.
  unfold declares, declareContracts, interfaceName.
  destruct (data n); try discriminate. intros Hname. rewrite Hname.
  apply String.eqb_eq in Hname; subst name. simpl. split; reflexivity.
Qed.

(** C7, the claim as stated fails.  In the file above [a] is in the Props
    unused set after the first declaration, is taken out by the read, and is
    back in the set after the second declaration; the run reports it. *)
Lemma C7_counterexample_redeclaration_readds :
  let w1 := visitNode newWalker ParentSourceFile redeclaredFirst in
  let w2 := visitNode w1 ParentSourceFile redeclaredUse in
  let w3 := visitNode w2 ParentSourceFile redeclaredSecond in
  propNames w1 = ["a"] /\ propNames w2 = [] /\ propNames w3 = ["a"]
  /\ Rule_apply (mkSourceFile JSX [redeclaredFirst; redeclaredUse; redeclaredSecond])
     = Normal [createFailure 92 10 "Unused React property defined in interface: a"].
Proof. vm_compute. repeat split; reflexivity. Qed.

(** C7, amended.  While the traversal visits nodes that declare no
    interface named Props or State, each unused set only shrinks: names are
    taken out, and a name that is not in a set is not put into it.  So does
    the whole second phase when no scanned class holds such a declaration.
    An interface named Props (State) sets the Props (State) set to the names
    of its own members, whatever the set was before. *)
Theorem C7_sets_shrink_without_redeclaration :
  (forall (w : Walker) (parent : Parent) (node : Node),
      everywhere declaresNoContract parent node = true ->
      Shrinks (propNames (visitNode w parent node)) (propNames w)
      /\ Shrinks (stateNames (visitNode w parent node)) (stateNames w)
      /\ (forall name, ~ In name (propNames w) ->
                       ~ In name (propNames (visitNode w parent node)))
      /\ (forall name, ~ In name (stateNames w) ->
                       ~ In name (stateNames (visitNode w parent node))))
  /\ (forall w : Walker,
         (forall c, In c (classDeclarations w) ->
                    forallb (everywhere declaresNoContract (ParentNode c)) (children c) = true) ->
         Shrinks (propNames (analyze w)) (propNames w)
         /\ Shrinks (stateNames (analyze w)) (stateNames w))
  /\ (forall (w : Walker) (parent : Parent) (node : Node),
         (declares "Props" node = true ->
          propNames (enter w parent node) = JsObject.keys (getTypeElementData node))
         /\ (declares "State" node = true ->
             stateNames (enter w parent node) = JsObject.keys (getTypeElementData node))).
Proof.
  split; [|split].
  - intros w parent node Hno.
    destruct (ShrunkFrom_visitNode node parent w Hno) as [Hp Hs].
    repeat split; try assumption.
    + intros name Hout Hin. apply Hout. eapply Shrinks_In; eassumption.
    + intros name Hout Hin. apply Hout. eapply Shrinks_In; eassumption.
  - intros w Hclasses. unfold analyze. case_if; [|split; apply Shrinks_refl].
    assert (H : forall l w0,
               (forall c, In c l ->
                  forallb (everywhere declaresNoContract (ParentNode c)) (children c) = true) ->
               ShrunkFrom w0 (fold_left walkChildren l w0)).
    { induction l as [|c l IH]; intros w0 Hl; simpl; [apply ShrunkFrom_refl|].
      eapply ShrunkFrom_trans.
      - apply ShrunkFrom_visitList. apply Hl. now left.
      - apply IH. intros c' Hc'. apply Hl. now right. }
    exact (H (classDeclarations w) w Hclasses).
  - intros w parent node. split; intros Hd.
    + unfold enter, kind. unfold declares in Hd.
      destruct (data node) eqn:Hdata; try discriminate.
      apply declareContracts_props. unfold declares. now rewrite Hdata.
    + unfold enter, kind. unfold declares in Hd.
      destruct (data node) eqn:Hdata; try discriminate.
      apply declareContracts_state. unfold declares. now rewrite Hdata.
Qed.

Lemma C7_witness :
  everywhere declaresNoContract ParentSourceFile redeclaredUse = true
  /\ Shrinks (propNames (visitNode (visitNode newWalker ParentSourceFile redeclaredFirst)
                                   ParentSourceFile redeclaredUse))
             ["a"].
Proof.
  split; [reflexivity|].
  apply (proj1 C7_sets_shrink_without_redeclaration
               (visitNode newWalker ParentSourceFile redeclaredFirst)
               ParentSourceFile redeclaredUse).
  reflexivity.
Defined.

(** ** Walkers that agree off one contract *)

Ltac agree_start c w1 w2 H :=
  destruct w1, w2; destruct c; unfold agreeOff in H; simpl in H;
  destruct H as [[? ?] [? [? [? ?]]]]; subst.

Ltac agree_cases :=
  repeat match goal with
         | |- context [match ?x with Some _ => _ | None => _ end] =>
             is_var x; destruct x; simpl
         | |- context [if ?x then _ else _] =>
             match type of x with bool => destruct x; simpl end
         | |- context [match parameters ?n with [] => _ | _ :: _ => _ end] =>
             destruct (parameters n); simpl
         end;
  unfold agreeOff; simpl; repeat split; reflexivity.

Lemma agreeOff_refl c w : agreeOff c w w.
Proof. destruct c; unfold agreeOff; repeat split; reflexivity. Qed.

Lemma agreeOff_enter c w1 w2 p n :
  agreeOff c w1 w2 -> agreeOff c (enter w1 p n) (enter w2 p n).
Proof.
  intros H. unfold enter. destruct (kind n); try exact H.
  - agree_start c w1 w2 H; unfold declareContracts; simpl; agree_cases.
  - agree_start c w1 w2 H; unfold enterConstructor; simpl; agree_cases.
  - agree_start c w1 w2 H; unfold enterMethod.
    + destruct (parameters n) as [|a [|b l]];
        repeat (destruct (testAlternation _ _)); unfold agreeOff; simpl;
        repeat split; reflexivity.
    + destruct (parameters n) as [|a [|b l]];
        repeat (destruct (testAlternation _ _)); unfold agreeOff; simpl;
        repeat split; reflexivity.
  - agree_start c w1 w2 H;
      unfold accessProperty, escapeCanonical, readStateAlias, readPropsAlias, readCanonical;
      simpl; agree_cases.
  - agree_start c w1 w2 H;
      unfold referIdentifier, escapeStateAlias, escapePropsAlias; simpl; agree_cases.
Qed.

Lemma agreeOff_leave c w1 w2 n :
  agreeOff c w1 w2 -> agreeOff c (leave n w1) (leave n w2).
Proof.
  intros H. unfold leave. destruct (kind n); try exact H;
    agree_start c w1 w2 H; unfold agreeOff; simpl; repeat split; reflexivity.
Qed.

Lemma agreeOff_class c w1 w2 n :
  agreeOff c w1 w2 -> agreeOff c (visitClassDeclaration w1 n) (visitClassDeclaration w2 n).
Proof.
  intros H. agree_start c w1 w2 H; unfold agreeOff; simpl; repeat split; reflexivity.
Qed.

Lemma agreeOff_visitNode c n :
  forall p w1 w2, agreeOff c w1 w2 -> agreeOff c (visitNode w1 p n) (visitNode w2 p n).
Proof.
  induction n as [d s wd t cs IH] using Node_children_ind.
  intros p w1 w2 H. rewrite !visitNode_unfold.
  case_if; [now apply agreeOff_class|].
  apply agreeOff_leave. unfold walkChildren.
  remember (mkNode d s wd t cs) as node eqn:Hnode.
  replace (children node) with cs by now subst node.
  apply (agreeOff_enter c w1 w2 p node) in H.
  revert H. generalize (enter w1 p node) as a, (enter w2 p node) as b.
  generalize (ParentNode node) as q. clear Hnode.
  induction IH as [|ch cs' Hch _ IHcs]; intros q a b H; simpl; [assumption|].
  apply IHcs. now apply Hch.
Qed.

Lemma agreeOff_visitList c l p :
  forall w1 w2, agreeOff c w1 w2 ->
    agreeOff c (fold_left (fun acc child => visitNode acc p child) l w1)
               (fold_left (fun acc child => visitNode acc p child) l w2).
Proof.
  induction l as [|ch l IH]; intros w1 w2 H; simpl; [assumption|].
  apply IH. now apply agreeOff_visitNode.
Qed.

Lemma Unbound_newWalker : Unbound newWalker.
Proof. split; reflexivity. Qed.

Lemma nodes_enter w p n :
  (declares "Props" n = false -> propNodes (enter w p n) = propNodes w)
  /\ (declares "State" n = false -> stateNodes (enter w p n) = stateNodes w).
Proof.
  unfold enter. destruct (kind n) eqn:Hk; try (split; reflexivity).
  - unfold declares, declareContracts, interfaceName.
    destruct (data n); try (split; reflexivity).
    split; intros ->; repeat case_if; reflexivity.
  - unfold enterConstructor. destruct (parameters n); split; reflexivity.
  - unfold enterMethod.
    destruct (parameters n) as [|a [|b l]];
      repeat (destruct (testAlternation _ _)); split; reflexivity.
  - destruct w.
    unfold accessProperty, escapeCanonical, readStateAlias, readPropsAlias, readCanonical.
    simpl.
    repeat match goal with
           | |- context [match ?x with Some _ => _ | None => _ end] =>
               is_var x; destruct x; simpl
           | |- context [if ?x then _ else _] =>
               match type of x with bool => destruct x; simpl end
           end; split; reflexivity.
  - destruct w.
    unfold referIdentifier, escapeStateAlias, escapePropsAlias. simpl.
    repeat match goal with
           | |- context [match ?x with Some _ => _ | None => _ end] =>
               is_var x; destruct x; simpl
           | |- context [if ?x then _ else _] =>
               match type of x with bool => destruct x; simpl end
           end; split; reflexivity.
Qed.

(** ** Walkers with no alias bound *)

Lemma Unbound_identifier w p n : Unbound w -> referIdentifier w p n = w.
Proof.
  intros [Hp Hs]. unfold referIdentifier, escapePropsAlias. rewrite Hp.
  unfold escapeStateAlias. now rewrite Hs.
Qed.

Lemma Unbound_access w p n :
  Unbound w ->
  accessProperty w p n = escapeCanonical (readCanonical w (getText n)) p (getText n).
Proof.
  intros [Hp Hs]. unfold accessProperty.
  assert (H1 : propsAlias (readCanonical w (getText n)) = None).
  { unfold readCanonical. repeat case_if; simpl; assumption. }
  assert (H2 : stateAlias (readCanonical w (getText n)) = None).
  { unfold readCanonical. repeat case_if; simpl; assumption. }
  unfold readPropsAlias. rewrite H1. unfold readStateAlias. now rewrite H2.
Qed.




(** Where no alias is bound and none gets bound, only a property access
    changes the walker. *)
Lemma test_thisProps_read a : JS.test thisPropsPattern ("this.props." ++ a) = true.
Proof. apply (JSFacts.test_literal_substring "this.props." "" a). Qed.

Lemma test_thisState_read a : JS.test thisStatePattern ("this.state." ++ a) = true.
Proof. apply (JSFacts.test_literal_substring "this.state." "" a). Qed.

(** ** C2: the whole props or state object used as a value *)

(** C2, the claim as stated fails.  In the first file [this.props] is an
    argument of a call inside the scanned class, yet the rule reports the
    Props member [a]: the interface declared after the call fills the set
    again.  In the second file [this.props] is an argument of a call below
    the scanned class [A], inside the class [B] that [A] holds; the
    traversal does not go into [B], and [a] is reported. *)
Lemma C2_counterexample_set_refilled_or_not_reached :
  (In escapeThenDeclare (scannedClasses (mkSourceFile JSX [redeclaredFirst; escapeThenDeclare]))
   /\ existsb (reaches (escapes PropsContract) (ParentNode escapeThenDeclare))
              (children escapeThenDeclare) = true
   /\ Rule_apply (mkSourceFile JSX [redeclaredFirst; escapeThenDeclare])
      = Normal [createFailure 83 10 "Unused React property defined in interface: a"])
  /\ (In escapeInInnerClass
          (scannedClasses (mkSourceFile JSX [redeclaredFirst; escapeInInnerClass]))
      /\ existsb (anywhere (escapes PropsContract) (ParentNode escapeInInnerClass))
                 (children escapeInInnerClass) = true
      /\ Rule_apply (mkSourceFile JSX [redeclaredFirst; escapeInInnerClass])
         = Normal [createFailure 18 10 "Unused React property defined in interface: a"]).
Proof.
  split; (split; [vm_compute; left; reflexivity | split; vm_compute; reflexivity]).
Qed.

Lemma escapeCanonical_clears c w p t :
  negb (SyntaxKind_eqb (parentKind p) PropertyAccessExpression) = true ->
  t = canonicalRoot c ->
  unusedNames c (escapeCanonical w p t) = [].
Proof.
  intros Hp ->. unfold escapeCanonical. rewrite Hp. destruct c; reflexivity.
Qed.

Lemma escapes_clears c w p n :
  escapes c p n = true -> unusedNames c (enter w p n) = [].
Proof.
  unfold escapes. intros H.
  apply andb_true_iff in H as [H Ht]. apply andb_true_iff in H as [Hk Hp].
  apply String.eqb_eq in Ht.
  unfold enter. destruct (kind n); try discriminate.
  unfold accessProperty. now apply escapeCanonical_clears.
Qed.

Lemma unusedNames_shrinks c w w' :
  ShrunkFrom w w' -> Shrinks (unusedNames c w') (unusedNames c w).
Proof. intros [Hp Hs]. destruct c; assumption. Qed.

Lemma Shrinks_empty l : Shrinks l [] -> l = [].
Proof. intros [f ->]. reflexivity. Qed.

Lemma unusedNames_enter c w p n :
  declaresNot c p n = true -> Shrinks (unusedNames c (enter w p n)) (unusedNames c w).
Proof.
  intros Hno. unfold declaresNot in Hno. apply negb_true_iff in Hno.
  unfold enter. destruct (kind n) eqn:Hk; try apply Shrinks_refl.
  - unfold declares in Hno. unfold declareContracts, interfaceName.
    destruct (data n); try apply Shrinks_refl.
    destruct c; simpl in Hno; rewrite Hno.
    + case_if; simpl; apply Shrinks_refl.
    + case_if; simpl; apply Shrinks_refl.
  - apply unusedNames_shrinks, ShrunkFrom_enterConstructor.
  - apply unusedNames_shrinks, ShrunkFrom_enterMethod.
  - apply unusedNames_shrinks, ShrunkFrom_accessProperty.
  - apply unusedNames_shrinks, ShrunkFrom_referIdentifier.
Qed.

Lemma failureText_distinct c c' name name' :
  (failureText c ++ name)%string = (failureText c' ++ name')%string -> c = c'.
Proof. destruct c, c'; try reflexivity; simpl; intros H; discriminate. Qed.

Lemma reported_in message nodes names fs f :
  Forall2 (reported message nodes) names fs -> In f fs ->
  exists name, failureMessage f = (message ++ name)%string.
Proof.
  induction 1 as [|name f' names fs Hf _ IH]; intros Hin; [destruct Hin|].
  destruct Hin as [<- | Hin]; [|now apply IH].
  destruct Hf as [te [_ ->]]. now exists name.
Qed.

Lemma cleared_after_scan (c : Contract) (sourceFile : SourceFileNode) :
  (forall cl, In cl (scannedClasses sourceFile) ->
              forallb (everywhere (declaresNot c) (ParentNode cl)) (children cl) = true) ->
  (exists cl, In cl (scannedClasses sourceFile)
              /\ existsb (reaches (escapes c) (ParentNode cl)) (children cl) = true) ->
  unusedNames c (analyzed sourceFile) = [].
Proof.
  intros Hclasses Hreach. unfold analyzed, analyze.
  destruct (_ || _) eqn:Hgate.
  - rewrite classDeclarations_collect.
    apply (scan_reaches (fun _ => True) (declaresNot c)
             (fun w p n _ _ _ => I) (fun w p n _ _ => I) (fun w p n _ _ _ => I)
             (escapes c) (fun w => unusedNames c w = [])); try assumption; try exact I.
    + intros w p n _ Hhit _ _. now apply escapes_clears.
    + intros w p n Hok _ _ Hw. apply Shrinks_empty.
      rewrite <- Hw. now apply unusedNames_enter.
    + intros w p n _ _ Hw. apply Shrinks_empty.
      rewrite <- Hw. apply unusedNames_shrinks, ShrunkFrom_leave.
    + intros w n _ _ Hw. destruct c; exact Hw.
  - apply orb_false_iff in Hgate as [Hp Hs].
    apply Nat.ltb_ge in Hp, Hs.
    destruct c; simpl.
    + destruct (propNames _); [reflexivity | simpl in Hp; lia].
    + destruct (stateNames _); [reflexivity | simpl in Hs; lia].
Qed.

(** C2, amended.  A property access whose text is [this.props]
    ([this.state]) and whose parent is not a property access clears the
    Props (State) unused set at that point, also when the parent is a call,
    and also when that call is [super(...)].  When such an access is met in
    a scanned class and no scanned class declares an interface named Props
    (State), the set is empty at the end and no finding of that contract is
    reported, whether or not any member was read. *)
Theorem C2_escape_clears_the_set :
  forall c : Contract,
    (forall (w : Walker) (parent : Parent) (node : Node),
        escapes c parent node = true ->
        unusedNames c (enter w parent node) = [])
    /\ (forall (w : Walker) (call node : Node),
           isParentNodeSuperCall (ParentNode call) = true ->
           kind node = PropertyAccessExpression ->
           getText node = canonicalRoot c ->
           unusedNames c (enter w (ParentNode call) node) = [])
    /\ (forall sourceFile : SourceFileNode,
           languageVariant sourceFile = JSX ->
           (forall cl, In cl (scannedClasses sourceFile) ->
                       forallb (everywhere (declaresNot c) (ParentNode cl))
                               (children cl) = true) ->
           (exists cl, In cl (scannedClasses sourceFile)
                       /\ existsb (reaches (escapes c) (ParentNode cl))
                                  (children cl) = true) ->
           unusedNames c (analyzed sourceFile) = []
           /\ exists findings,
               Rule_apply sourceFile = Normal findings
               /\ forall f name, In f findings ->
                                 failureMessage f <> (failureText c ++ name)%string).
Proof.
  intros c. split; [|split].
  - intros w parent node. apply escapes_clears.
  - intros w call node Hsuper Hkind Htext. apply escapes_clears.
    unfold escapes. rewrite Hkind, Htext, String.eqb_refl.
    simpl in Hsuper. unfold parentKind, kind.
    destruct (data call); try discriminate. reflexivity.
  - intros sourceFile Hjsx Hclasses Hreach.
    pose proof (cleared_after_scan c sourceFile Hclasses Hreach) as Hclear.
    split; [assumption|].
    destruct (Rule_apply_JSX sourceFile Hjsx) as [ps [ss [Hrun [Hps Hss]]]].
    exists (ps ++ ss). split; [assumption|].
    intros f name Hin Hmsg.
    apply in_app_iff in Hin as [Hin | Hin].
    + destruct (reported_in _ _ _ _ _ Hps Hin) as [name' Hname'].
      rewrite Hname' in Hmsg.
      apply (failureText_distinct PropsContract c) in Hmsg. subst c.
      simpl in Hclear. rewrite Hclear in Hps. inversion Hps; subst. destruct Hin.
    + destruct (reported_in _ _ _ _ _ Hss Hin) as [name' Hname'].
      rewrite Hname' in Hmsg.
      apply (failureText_distinct StateContract c) in Hmsg. subst c.
      simpl in Hclear. rewrite Hclear in Hss. inversion Hss; subst. destruct Hin.
Qed.

Lemma C2_witness :
  unusedNames PropsContract (analyzed (mkSourceFile JSX [redeclaredFirst; superWithProps])) = []
  /\ exists findings,
      Rule_apply (mkSourceFile JSX [redeclaredFirst; superWithProps]) = Normal findings
      /\ forall f name, In f findings ->
                        failureMessage f <> (failureText PropsContract ++ name)%string.
Proof.
  apply (proj2 (proj2 (C2_escape_clears_the_set PropsContract))
               (mkSourceFile JSX [redeclaredFirst; superWithProps])).
  - reflexivity.
  - intros cl Hcl. vm_compute in Hcl. destruct Hcl as [<- | []]. reflexivity.
  - exists superWithProps. split; [vm_compute; left; reflexivity | reflexivity].
Defined.

(** ** C4: an alias identifier on its own *)




(** ** Reads through an alias *)

Lemma aliases_readCanonical w t :
  propsAlias (readCanonical w t) = propsAlias w
  /\ stateAlias (readCanonical w t) = stateAlias w.
Proof. unfold readCanonical. repeat case_if; split; reflexivity. Qed.

Lemma aliases_readPropsAlias w t :
  propsAlias (readPropsAlias w t) = propsAlias w
  /\ stateAlias (readPropsAlias w t) = stateAlias w.
Proof.
  unfold readPropsAlias. destruct (propsAlias w) eqn:E; [case_if|]; simpl; auto.
Qed.

Lemma readPropsAlias_removes w p x :
  propsAlias w = Some p -> lacks "$" p = true ->
  readPropsAlias w (p ++ "." ++ x) = set_propNames w (Utils_remove (propNames w) x).
Proof.
  intros Hp Hd. unfold readPropsAlias.
  now rewrite Hp, JSFacts.test_alias_read, JSFacts.substring_after_dot.
Qed.

Lemma readStateAlias_removes w p x :
  stateAlias w = Some p -> lacks "$" p = true ->
  readStateAlias w (p ++ "." ++ x) = set_stateNames w (Utils_remove (stateNames w) x).
Proof.
  intros Hp Hd. unfold readStateAlias.
  now rewrite Hp, JSFacts.test_alias_read, JSFacts.substring_after_dot.
Qed.

(** A read through a bound alias takes the member out of the set. *)
Lemma alias_read_removes c w p x parent node :
  aliasOf c w = Some p -> lacks "$" p = true ->
  readsThrough p x parent node = true ->
  ~ In x (unusedNames c (enter w parent node)).
Proof.
  intros Halias Hd Hread. unfold readsThrough in Hread.
  apply andb_true_iff in Hread as [Hk Ht]. apply String.eqb_eq in Ht.
  unfold enter. destruct (kind node); try discriminate.
  unfold accessProperty. rewrite Ht.
  set (t := (p ++ "." ++ x)%string).
  destruct (aliases_readCanonical w t) as [Hp1 Hs1].
  destruct (aliases_readPropsAlias (readCanonical w t) t) as [Hp2 Hs2].
  intros Hin.
  apply (Shrinks_In _ _ _ (unusedNames_shrinks c _ _ (ShrunkFrom_escapeCanonical _ parent t)))
    in Hin.
  destruct c; cbn [unusedNames aliasOf] in *.
  - apply (Shrinks_In _ _ _ (proj1 (ShrunkFrom_readStateAlias _ t))) in Hin.
    assert (Hb : propsAlias (readCanonical w t) = Some p) by congruence.
    unfold t in Hin, Hb. rewrite (readPropsAlias_removes _ p x Hb Hd) in Hin.
    cbn [propNames set_propNames] in Hin. apply in_Utils_remove in Hin. tauto.
  - assert (Hb : stateAlias (readPropsAlias (readCanonical w t) t) = Some p) by congruence.
    unfold t in Hin, Hb. rewrite (readStateAlias_removes _ p x Hb Hd) in Hin.
    cbn [stateNames set_stateNames] in Hin. apply in_Utils_remove in Hin. tauto.
Qed.

Lemma aliasOf_enter c w p n :
  opensScope c p n = false -> aliasOf c (enter w p n) = aliasOf c w.
Proof.
  unfold opensScope. intros Hok. apply orb_false_iff in Hok as [Hm Hc].
  destruct (kind n) eqn:Hk; try discriminate;
    try (destruct (aliases_enter w p n) as [Hp Hs];
         [rewrite Hk; discriminate | rewrite Hk; discriminate |];
         now destruct c).
  destruct c; [discriminate|].
  unfold enter. rewrite Hk. unfold enterConstructor.
  now destruct (parameters n).
Qed.

Lemma aliasOf_leave c w p n :
  opensScope c p n = false -> aliasOf c (leave n w) = aliasOf c w.
Proof.
  unfold opensScope. intros Hok. apply orb_false_iff in Hok as [Hm Hc].
  unfold leave. destruct (kind n); try discriminate; try reflexivity.
  now destruct c.
Qed.

Section AliasScope.
Variable c : Contract.
Variable alias : string.

Lemma Bound_enter w p n :
  scopeless c p n = true -> isClassDeclaration n = false ->
  Bound c alias w -> Bound c alias (enter w p n).
Proof.
  intros Hok _ Hw. apply negb_true_iff in Hok. unfold Bound. now rewrite aliasOf_enter.
Qed.

Lemma Bound_leave w p n :
  scopeless c p n = true -> Bound c alias w -> Bound c alias (leave n w).
Proof.
  intros Hok Hw. apply negb_true_iff in Hok. unfold Bound.
  now rewrite (aliasOf_leave c w p n).
Qed.

Lemma Bound_class w n : Bound c alias w -> Bound c alias (visitClassDeclaration w n).
Proof. intros Hw. destruct c; exact Hw. Qed.

(** The alias stays bound across a node that holds no constructor or
    method. *)
Lemma alias_stays_bound n p w :
  everywhere (scopeless c) p n = true ->
  aliasOf c w = Some alias -> aliasOf c (visitNode w p n) = Some alias.
Proof.
  intros Hok Hw.
  exact (visitNode_invariant (Bound c alias) (scopeless c)
           Bound_enter Bound_leave (fun w0 p0 n0 _ _ => Bound_class w0 n0)
           n p w Hok Hw).
Qed.

Variable member : string.

Lemma Taken_enter w p n :
  declaresNot c p n = true -> Taken c member w -> Taken c member (enter w p n).
Proof.
  intros Hok Hw Hin. apply Hw.
  eapply Shrinks_In; [|exact Hin]. now apply unusedNames_enter.
Qed.

Lemma Taken_leave w n : Taken c member w -> Taken c member (leave n w).
Proof.
  intros Hw Hin. apply Hw.
  eapply Shrinks_In; [|exact Hin]. apply unusedNames_shrinks, ShrunkFrom_leave.
Qed.

Lemma Taken_class w n : Taken c member w -> Taken c member (visitClassDeclaration w n).
Proof. intros Hw. destruct c; exact Hw. Qed.

Lemma Taken_visitList l p w :
  forallb (everywhere (declaresNot c) p) l = true ->
  Taken c member w ->
  Taken c member (fold_left (fun acc child => visitNode acc p child) l w).
Proof.
  apply (visitList_invariant (Taken c member) (declaresNot c)).
  - intros w0 p0 n0 Hok _. now apply Taken_enter.
  - intros w0 p0 n0 _. apply Taken_leave.
  - intros w0 p0 n0 _ _. apply Taken_class.
Qed.

Hypothesis alias_plain : lacks "$" alias = true.

Lemma meets_unfold hit stop p n :
  meets hit stop p n
  = if isClassDeclaration n then None
    else if hit p n then Some true
    else if stop p n then Some false
    else meetsAmong hit stop (ParentNode n) (children n).
Proof. destruct n; reflexivity. Qed.

(** The siblings [l], given what the visit of each of them does. *)
Lemma read_met_list (l : list Node) :
  Forall (fun n => forall p w,
            everywhere (declaresNot c) p n = true ->
            Outcome c alias member (meets (readsThrough alias member) (opensScope c) p n)
                    w (visitNode w p n)) l ->
  forall p w,
    forallb (everywhere (declaresNot c) p) l = true ->
    Outcome c alias member (meetsAmong (readsThrough alias member) (opensScope c) p l)
            w (fold_left (fun acc child => visitNode acc p child) l w).
Proof.
  induction 1 as [|n l Hn _ IH]; intros p w Hok.
  - intros Hb. exact Hb.
  - simpl in Hok. apply andb_true_iff in Hok as [Hok1 Hok2].
    specialize (Hn p w Hok1). specialize (IH p (visitNode w p n) Hok2).
    unfold meetsAmong in *. simpl.
    destruct (meets (readsThrough alias member) (opensScope c) p n) as [[|]|]; simpl in *.
    + intros Hb. apply Taken_visitList; [assumption | now apply Hn].
    + exact I.
    + destruct (firstSome _) as [[|]|]; simpl in *.
      * intros Hb. now apply IH, Hn.
      * exact I.
      * intros Hb. now apply IH, Hn.
Qed.

(** A read through the alias that the traversal meets before any
    constructor or method takes the member out of the set, for good; where
    it meets neither, the alias is still bound afterwards. *)
Lemma read_met n :
  forall p w,
    everywhere (declaresNot c) p n = true ->
    Outcome c alias member (meets (readsThrough alias member) (opensScope c) p n)
            w (visitNode w p n).
Proof.
  induction n as [d s wd t cs IH] using Node_children_ind.
  intros p w Hok. rewrite meets_unfold, visitNode_unfold.
  destruct (isClassDeclaration _) eqn:Hc; [intros Hb; now apply Bound_class|].
  rewrite everywhere_unfold in Hok. apply andb_true_iff in Hok as [Hhere Hbelow].
  remember (mkNode d s wd t cs) as node eqn:Hnode.
  assert (Hcs : children node = cs) by now subst node.
  destruct (readsThrough alias member p node) eqn:Hhit.
  - intros Hb. apply Taken_leave. unfold walkChildren.
    apply Taken_visitList; [assumption|].
    exact (alias_read_removes c w alias member p node Hb alias_plain Hhit).
  - destruct (opensScope c p node) eqn:Hscope; [exact I|].
    rewrite Hcs in *.
    pose proof (read_met_list cs IH (ParentNode node) (enter w p node) Hbelow) as Hlist.
    unfold walkChildren. rewrite Hcs.
    assert (Hs : scopeless c p node = true) by (unfold scopeless; now rewrite Hscope).
    destruct (meetsAmong _ _ _ cs) as [[|]|]; simpl in *.
    + intros Hb. apply Taken_leave, Hlist. now apply Bound_enter.
    + exact I.
    + intros Hb. apply (Bound_leave _ p); [assumption|].
      apply Hlist. now apply Bound_enter.
Qed.

Lemma read_met_among l p w :
  forallb (everywhere (declaresNot c) p) l = true ->
  meetsAmong (readsThrough alias member) (opensScope c) p l = Some true ->
  aliasOf c w = Some alias ->
  ~ In member (unusedNames c (fold_left (fun acc child => visitNode acc p child) l w)).
Proof.
  intros Hok Hmet Hb.
  assert (Hall : Forall (fun n => forall p0 w0,
                           everywhere (declaresNot c) p0 n = true ->
                           Outcome c alias member
                                   (meets (readsThrough alias member) (opensScope c) p0 n)
                                   w0 (visitNode w0 p0 n)) l)
    by (apply Forall_forall; intros n _; apply read_met).
  pose proof (read_met_list l Hall p w Hok) as Hlist.
  rewrite Hmet in Hlist. now apply Hlist.
Qed.

End AliasScope.

(** ** C5: lifecycle methods *)

Lemma containsOneOf_test hooks s :
  containsOneOf hooks s -> testAlternation (map JS.literal hooks) s = true.
Proof.
  intros (hook & before & after & Hin & ->).
  unfold testAlternation. apply existsb_exists.
  exists (JS.literal hook). split; [now apply in_map|].
  apply JSFacts.test_literal_substring.
Qed.

Lemma enterMethod_props w node first rest :
  parameters node = first :: rest ->
  testAlternation propsHookPatterns (methodName node) = true ->
  propsAlias (enterMethod w node) = parameterNameText first.
Proof.
  intros Hparams Htest. unfold enterMethod. rewrite Hparams, Htest.
  destruct rest as [|second rest']; [reflexivity|].
  case_if; reflexivity.
Qed.

Lemma enterMethod_state w node first second rest :
  parameters node = first :: second :: rest ->
  testAlternation stateHookPatterns (methodName node) = true ->
  stateAlias (enterMethod w node) = parameterNameText second.
Proof.
  intros Hparams Htest. unfold enterMethod. now rewrite Hparams, Htest.
Qed.

Lemma scope_ends c w p n :
  opensScope c p n = true -> aliasOf c (visitNode w p n) = None.
Proof.
  unfold opensScope. intros Hscope. rewrite visitNode_unfold.
  unfold isClassDeclaration, leave.
  destruct (kind n); try discriminate; destruct c; try discriminate; reflexivity.
Qed.

(** C5, the claim as stated fails.  The body of [componentDidUpdate] reads
    [prevState.y], but the method declared in the body before the read
    unsets the state alias when the traversal leaves it: [y] stays in the
    State unused set and is reported.  Without that method the same read
    takes [y] out. *)
Lemma C5_counterexample_alias_unset_by_nested_method :
  existsb (reaches (readsThrough "prevState" "y") (ParentNode didUpdateWithMethod))
          (children didUpdateWithMethod) = true
  /\ stateNames (visitNode (set_stateNames newWalker ["y"])
                           (ParentNode (didUpdateClass didUpdateWithMethod))
                           didUpdateWithMethod) = ["y"]
  /\ Rule_apply (mkSourceFile JSX [stateInterface; didUpdateClass didUpdateWithMethod])
     = Normal [createFailure 18 10 "Unused React state defined in interface: y"]
  /\ Rule_apply (mkSourceFile JSX [stateInterface; didUpdateClass didUpdateMethod])
     = Normal [].
Proof. vm_compute. repeat split; reflexivity. Qed.

(** C5, amended.  A method declaration whose name holds one of the four
    lifecycle hook names as a substring, and that has a parameter, binds
    the name text of its first parameter as the props alias.  When the name
    holds one of the last three hook names and there is a second parameter,
    the name text of that parameter is bound as the state alias.  The state
    alias stays bound across every node that holds no method declaration,
    and the visit of a method declaration leaves it unset.  A property
    access with the text [alias.y] that the traversal of the method meets
    before any method declared in the body takes [y] out of the State
    unused set, and [y] is out of it at the end of the method when the body
    declares no interface named State; the alias is free of [$]. *)
Theorem C5_lifecycle_method_binds_aliases :
  forall (w : Walker) (parent : Parent) (method first : Node) (rest : list Node),
    kind method = MethodDeclaration ->
    parameters method = first :: rest ->
    containsOneOf propsHooks (methodName method) ->
    propsAlias (enter w parent method) = parameterNameText first
    /\ (forall (second : Node) (rest' : list Node),
           rest = second :: rest' ->
           containsOneOf stateHooks (methodName method) ->
           stateAlias (enter w parent method) = parameterNameText second
           /\ (forall (alias : string),
                  parameterNameText second = Some alias ->
                  (forall w' q node,
                      stateAlias w' = Some alias ->
                      everywhere (scopeless StateContract) q node = true ->
                      stateAlias (visitNode w' q node) = Some alias)
                  /\ (forall w' q node,
                         opensScope StateContract q node = true ->
                         stateAlias (visitNode w' q node) = None)
                  /\ (lacks "$" alias = true ->
                      (forall w' q node y,
                          stateAlias w' = Some alias ->
                          readsThrough alias y q node = true ->
                          ~ In y (stateNames (enter w' q node)))
                      /\ (forall y,
                             forallb (everywhere (declaresNot StateContract)
                                                 (ParentNode method))
                                     (children method) = true ->
                             meetsAmong (readsThrough alias y) (opensScope StateContract)
                                        (ParentNode method) (children method)
                             = Some true ->
                             ~ In y (stateNames (visitNode w parent method)))))).
Proof.
  intros w parent method first rest Hkind Hparams Hname.
  unfold enter at 1 2. rewrite Hkind.
  split.
  - apply (enterMethod_props w method first rest Hparams).
    now apply (containsOneOf_test propsHooks).
  - intros second rest' -> Hstate.
    assert (Hbound : stateAlias (enterMethod w method) = parameterNameText second).
    { apply (enterMethod_state w method first second rest' Hparams).
      now apply (containsOneOf_test stateHooks). }
    split; [exact Hbound|].
    intros alias Halias. split; [|split].
    + intros w' q node Hw' Hok.
      exact (alias_stays_bound StateContract alias node q w' Hok Hw').
    + intros w' q node Hscope. exact (scope_ends StateContract w' q node Hscope).
    + intros Hplain. split.
      * intros w' q node y Hw' Hread.
        exact (alias_read_removes StateContract w' alias y q node Hw' Hplain Hread).
      * intros y Hbody Hread.
        rewrite visitNode_unfold.
        assert (Hc : isClassDeclaration method = false).
        { unfold isClassDeclaration. now rewrite Hkind. }
        rewrite Hc. unfold leave, enter. rewrite Hkind. simpl.
        apply (read_met_among StateContract alias y Hplain
                 (children method) (ParentNode method) (enterMethod w method) Hbody Hread).
        simpl. congruence.
Qed.

Lemma C5_witness :
  ~ In "y" (stateNames (visitNode (set_stateNames newWalker ["y"]) ParentSourceFile
                                  didUpdateMethod)).
Proof.
  refine (proj2 (proj2 (proj2 (proj2 (proj2 (C5_lifecycle_method_binds_aliases
                          (set_stateNames newWalker ["y"]) ParentSourceFile didUpdateMethod
                          (Syntax.parameter 60 "prevProps") [Syntax.parameter 71 "prevState"]
                          eq_refl eq_refl _)
                       (Syntax.parameter 71 "prevState") [] eq_refl _)
                "prevState" eq_refl)) eq_refl) "y" eq_refl eq_refl).
  - exists "componentDidUpdate", "", "". split; [simpl; auto | reflexivity].
  - exists "componentDidUpdate", "", "". split; [simpl; auto | reflexivity].
Defined.

(** ** C3: the constructor's parameter as props alias *)

(** C3, the claim as stated fails.  The parameter [props] is bound on
    entry, but the method declared in the body unbinds it on exit: the read
    [props.x] after it is not seen and [x] is reported, where the canonical
    read [this.props.x] in its place takes [x] out. *)
Lemma C3_counterexample_alias_unbound_by_nested_method :
  Rule_apply (mkSourceFile JSX [propsX; constructorWith (Syntax.aliasRead 107 "props" "x")])
  = Normal [createFailure 18 10 "Unused React property defined in interface: x"]
  /\ Rule_apply (mkSourceFile JSX [propsX; constructorWith (Syntax.canonicalRead 107 "props" "x")])
     = Normal [].
Proof. split; vm_compute; reflexivity. Qed.

Lemma enterConstructor_binds w node first rest :
  parameters node = first :: rest ->
  propsAlias (enterConstructor w node) = parameterNameText first.
Proof. intros Hparams. unfold enterConstructor. now rewrite Hparams. Qed.

Lemma alias_read_exact w parent node p x :
  propsAlias w = Some p -> stateAlias w = None ->
  lacks "$" p = true -> lacks "." p = true -> lacks "." x = true -> p <> "this" ->
  kind node = PropertyAccessExpression ->
  getText node = (p ++ "." ++ x)%string ->
  enter w parent node = set_propNames w (Utils_remove (propNames w) x).
Proof.
  intros Hp Hs Hdollar Hdotp Hdotx Hthis Hkind Htext.
  unfold enter. rewrite Hkind. unfold accessProperty. rewrite Htext.
  assert (Hcanon : readCanonical w (p ++ "." ++ x) = w).
  { unfold readCanonical, thisPropsPattern, thisStatePattern.
    rewrite !JSFacts.test_canonical_single_dot by (assumption || reflexivity).
    reflexivity. }
  rewrite Hcanon, (readPropsAlias_removes w p x Hp Hdollar).
  unfold readStateAlias. cbn [stateAlias set_propNames]. rewrite Hs.
  unfold escapeCanonical.
  assert (Hroot : forall member, lacks "." member = true ->
            String.eqb (p ++ "." ++ x) ("this" ++ "." ++ member) = false).
  { intros member Hm. apply String.eqb_neq. intros Heq.
    apply JSFacts.dotted_split in Heq; [contradiction | assumption | reflexivity]. }
  change "this.props" with ("this" ++ "." ++ "props")%string.
  change "this.state" with ("this" ++ "." ++ "state")%string.
  rewrite !Hroot by reflexivity.
  now destruct (negb _).
Qed.

Lemma canonical_read_exact w parent node x :
  Unbound w ->
  kind node = PropertyAccessExpression ->
  getText node = ("this.props." ++ x)%string ->
  enter w parent node = set_propNames w (Utils_remove (propNames w) x).
Proof.
  intros Hw Hkind Htext. unfold enter. rewrite Hkind.
  rewrite (Unbound_access w parent node Hw), Htext.
  unfold readCanonical. rewrite test_thisProps_read.
  change (JS.substring 11 ("this.props." ++ x)) with x.
  unfold escapeCanonical.
  assert (H1 : String.eqb ("this.props." ++ x) "this.props" = false) by reflexivity.
  assert (H2 : String.eqb ("this.props." ++ x) "this.state" = false) by reflexivity.
  rewrite H1, H2. now destruct (negb _).
Qed.

(** C3, amended.  A constructor with a parameter binds the name text [p]
    of its first parameter as the props alias when it is entered, whatever
    was bound before.  [p] stays bound across every node that holds no
    constructor and no method declaration; the visit of a constructor or
    method declared in the body leaves the alias unset, and it is not
    restored.  While [p] is bound, [p] being free of [$], a property access
    with the text [p.x] takes [x] out of the Props unused set; where no
    state alias is bound, [p] and [x] hold no dot and [p] is not [this],
    the walker after it is the one after the canonical read
    [this.props.x], but for the alias register.  A read [p.x] that the
    traversal of the body meets before any constructor or method declared
    in the body leaves [x] out of the set at the end of the constructor,
    when the body declares no interface named Props. *)
Theorem C3_constructor_parameter_is_props_alias :
  forall (w : Walker) (parent : Parent) (ctor first : Node) (rest : list Node) (p : string),
    kind ctor = Constructor ->
    parameters ctor = first :: rest ->
    parameterNameText first = Some p ->
    propsAlias (enter w parent ctor) = Some p
    /\ (forall w' q node,
           propsAlias w' = Some p ->
           everywhere (scopeless PropsContract) q node = true ->
           propsAlias (visitNode w' q node) = Some p)
    /\ (forall w' q node,
           opensScope PropsContract q node = true ->
           propsAlias (visitNode w' q node) = None)
    /\ (lacks "$" p = true ->
        (forall w' q node x,
            propsAlias w' = Some p ->
            readsThrough p x q node = true ->
            ~ In x (propNames (enter w' q node)))
        /\ (forall w' q aliasNode canonicalNode x,
               propsAlias w' = Some p -> stateAlias w' = None ->
               lacks "." p = true -> lacks "." x = true -> p <> "this" ->
               kind aliasNode = PropertyAccessExpression ->
               getText aliasNode = (p ++ "." ++ x)%string ->
               kind canonicalNode = PropertyAccessExpression ->
               getText canonicalNode = ("this.props." ++ x)%string ->
               enter w' q aliasNode
               = set_propsAlias (enter (set_propsAlias w' None) q canonicalNode) (Some p)
               /\ propNames (enter w' q aliasNode) = Utils_remove (propNames w') x)
        /\ (forall x,
               forallb (everywhere (declaresNot PropsContract) (ParentNode ctor))
                       (children ctor) = true ->
               meetsAmong (readsThrough p x) (opensScope PropsContract)
                          (ParentNode ctor) (children ctor) = Some true ->
               ~ In x (propNames (visitNode w parent ctor)))).
Proof.
  intros w parent ctor first rest p Hkind Hparams Hname.
  assert (Hbound : propsAlias (enter w parent ctor) = Some p).
  { unfold enter. rewrite Hkind.
    now rewrite (enterConstructor_binds w ctor first rest Hparams). }
  split; [exact Hbound|]. split; [|split].
  - intros w' q node Hw' Hok.
    exact (alias_stays_bound PropsContract p node q w' Hok Hw').
  - intros w' q node Hscope. exact (scope_ends PropsContract w' q node Hscope).
  - intros Hdollar. split; [|split].
    + intros w' q node x Hw' Hread.
      exact (alias_read_removes PropsContract w' p x q node Hw' Hdollar Hread).
    + intros w' q aliasNode canonicalNode x Hw' Hs Hdotp Hdotx Hthis Hk1 Ht1 Hk2 Ht2.
      rewrite (alias_read_exact w' q aliasNode p x) by assumption.
      rewrite (canonical_read_exact (set_propsAlias w' None) q canonicalNode x);
        [|split; [reflexivity | exact Hs] | assumption | assumption].
      split; [|reflexivity].
      destruct w'; simpl in *; subst; reflexivity.
    + intros x Hbody Hread.
      rewrite visitNode_unfold.
      assert (Hc : isClassDeclaration ctor = false).
      { unfold isClassDeclaration. now rewrite Hkind. }
      rewrite Hc. unfold leave. rewrite Hkind. cbn [propNames set_propsAlias].
      exact (read_met_among PropsContract p x Hdollar (children ctor) (ParentNode ctor)
               (enter w parent ctor) Hbody Hread Hbound).
Qed.

Lemma C3_witness :
  ~ In "x" (propNames (visitNode (set_propNames newWalker ["x"]) ParentSourceFile
                                 (constructorReading "props" "x"))).
Proof.
  refine (proj2 (proj2 (proj2 (proj2 (proj2 (C3_constructor_parameter_is_props_alias
            (set_propNames newWalker ["x"]) ParentSourceFile (constructorReading "props" "x")
            (Syntax.parameter 53 "props") [] "props" eq_refl eq_refl eq_refl))) eq_refl))
          "x" eq_refl eq_refl).
Defined.

(** ** C8: a contract declared again *)

(** C8, the claim as stated fails where the traversal does not meet the
    second declaration.  In the first file the second interface named
    Props stands in the class [B] that the scanned class [A] holds: the
    traversal does not go into [B], and the member [a] of the first
    declaration is reported.  In the second file the first declaration has
    no member, so that the first phase leaves both sets empty and no class
    is scanned: the member [z] of the second declaration is never tracked,
    although the same class after a first declaration with a member has it
    reported. *)
Lemma C8_counterexample_second_declaration_not_met :
  (existsb (anywhere (fun _ node => declares "Props" node) (ParentNode secondInInnerClass))
           (children secondInInnerClass) = true
   /\ Rule_apply (mkSourceFile JSX [redeclaredFirst; secondInInnerClass])
      = Normal [createFailure 18 10 "Unused React property defined in interface: a"])
  /\ (existsb (reaches (fun _ node => declares "Props" node) (ParentNode secondInClass))
              (children secondInClass) = true
      /\ Rule_apply (mkSourceFile JSX [emptyProps; secondInClass]) = Normal []
      /\ Rule_apply (mkSourceFile JSX [redeclaredFirst; secondInClass])
         = Normal [createFailure 65 10 "Unused React property defined in interface: z"]).
Proof. vm_compute. repeat split; reflexivity. Qed.

Lemma collectMembers_keeps (ms : list Node) :
  forall o k,
    (exists te, JsObject.get o k = Some te) ->
    exists te, JsObject.get (fold_left collectMember ms o) k = Some te.
Proof.
  induction ms as [|m ms IH]; intros o k Hk; simpl; [assumption|].
  apply IH. unfold collectMember.
  destruct (typeElementNameText m) as [k'|]; [|assumption].
  unfold JsObject.set. destruct (String.eqb k' "__proto__"); [assumption|].
  destruct (string_dec k' k) as [-> | Hne].
  - rewrite get_put_same. now exists m.
  - now rewrite get_put_other.
Qed.

Lemma collectMembers_has (ms : list Node) :
  forall o m k,
    In m ms -> typeElementNameText m = Some k -> k <> "__proto__" ->
    exists te, JsObject.get (fold_left collectMember ms o) k = Some te.
Proof.
  induction ms as [|m' ms IH]; intros o m k Hin Hname Hproto; [destruct Hin|].
  destruct Hin as [-> | Hin]; simpl.
  - apply collectMembers_keeps. unfold collectMember. rewrite Hname.
    unfold JsObject.set. apply String.eqb_neq in Hproto. rewrite Hproto.
    rewrite get_put_same. now exists m.
  - now apply (IH _ m).
Qed.

(** The keys of the member map are the name texts of the members. *)
Lemma getTypeElementData_keys (node : Node) (name : string) :
  In name (JsObject.keys (getTypeElementData node))
  <-> name <> "__proto__"
      /\ exists member, In member (members node)
                        /\ typeElementNameText member = Some name.
Proof.
  rewrite keys_get. split.
  - intros [te Hte]. apply getTypeElementData_entry in Hte as (Hin & Hname & Hproto).
    split; [assumption | now exists te].
  - intros [Hproto [member [Hin Hname]]].
    rewrite getTypeElementData_fold. now apply (collectMembers_has _ _ member).
Qed.

Lemma declares_kind contract node :
  declares contract node = true -> kind node = InterfaceDeclaration.
Proof.
  unfold declares, kind. destruct (data node); try discriminate; reflexivity.
Qed.

Lemma declared_fields c w parent node :
  declares (contractName c) node = true ->
  memberNodes c (enter w parent node) = getTypeElementData node
  /\ unusedNames c (enter w parent node) = JsObject.keys (getTypeElementData node).
Proof.
  intros Hd. unfold enter. rewrite (declares_kind _ _ Hd).
  destruct c; simpl in Hd.
  - now apply declareContracts_props.
  - now apply declareContracts_state.
Qed.

Lemma memberNodes_enter c w p n :
  declaresNot c p n = true -> memberNodes c (enter w p n) = memberNodes c w.
Proof.
  unfold declaresNot. intros Hno. apply negb_true_iff in Hno.
  destruct (nodes_enter w p n) as [Hp Hs]. destruct c; simpl in *; auto.
Qed.

Lemma memberNodes_leave c w n : memberNodes c (leave n w) = memberNodes c w.
Proof. unfold leave. destruct (kind n); now destruct c. Qed.

(** The fields of [c] once its last declaration has been met: the map is
    the one of that declaration, the set is shrunk from its keys. *)
Lemma Replaced_enter c D w p n :
  declaresNot c p n = true ->
  memberNodes c w = D /\ Shrinks (unusedNames c w) (JsObject.keys D) ->
  memberNodes c (enter w p n) = D
  /\ Shrinks (unusedNames c (enter w p n)) (JsObject.keys D).
Proof.
  intros Hno [Hn Hs]. split.
  - now rewrite memberNodes_enter.
  - eapply Shrinks_trans; [now apply unusedNames_enter | exact Hs].
Qed.

Lemma append_inj_l (prefix a b : string) :
  (prefix ++ a = prefix ++ b)%string -> a = b.
Proof.
  induction prefix as [|c prefix IH]; simpl; intros H; [assumption|].
  inversion H. now apply IH.
Qed.

Lemma Replaced_leave c D w n :
  memberNodes c w = D /\ Shrinks (unusedNames c w) (JsObject.keys D) ->
  memberNodes c (leave n w) = D
  /\ Shrinks (unusedNames c (leave n w)) (JsObject.keys D).
Proof.
  intros [Hn Hs]. split; [now rewrite memberNodes_leave|].
  eapply Shrinks_trans; [apply unusedNames_shrinks, ShrunkFrom_leave | exact Hs].
Qed.

Lemma Replaced_class c D w n :
  memberNodes c w = D /\ Shrinks (unusedNames c w) (JsObject.keys D) ->
  memberNodes c (visitClassDeclaration w n) = D
  /\ Shrinks (unusedNames c (visitClassDeclaration w n)) (JsObject.keys D).
Proof. intros H. destruct c; exact H. Qed.

(** C8, amended.  When the traversal visits an interface named Props (or
    State), the member map of that contract becomes the map of this
    declaration and the unused set becomes the list of its keys, which are
    the name texts of its members, [__proto__] apart: nothing of an earlier
    declaration is kept.  In a JSX file with such a declaration among its
    statements, where no statement after it and no scanned class declares
    the contract again, the member map at the end is that of this
    declaration, whatever stands before it, and every finding of the
    contract is for a member of this declaration, at the span of that
    member: a name that only earlier declarations have is not reported. *)
Theorem C8_second_declaration_replaces_first :
  forall c : Contract,
    (forall (w : Walker) (parent : Parent) (second : Node),
        declares (contractName c) second = true ->
        memberNodes c (enter w parent second) = getTypeElementData second
        /\ unusedNames c (enter w parent second)
           = JsObject.keys (getTypeElementData second)
        /\ (forall name,
               In name (unusedNames c (enter w parent second))
               <-> name <> "__proto__"
                   /\ exists member, In member (members second)
                                     /\ typeElementNameText member = Some name))
    /\ (forall (sourceFile : SourceFileNode) (before after : list Node) (second : Node),
           languageVariant sourceFile = JSX ->
           statements sourceFile = before ++ second :: after ->
           declares (contractName c) second = true ->
           forallb (everywhere (declaresNot c) (ParentNode second))
                   (children second) = true ->
           forallb (everywhere (declaresNot c) ParentSourceFile) after = true ->
           (forall cl, In cl (scannedClasses sourceFile) ->
                       forallb (everywhere (declaresNot c) (ParentNode cl))
                               (children cl) = true) ->
           memberNodes c (analyzed sourceFile) = getTypeElementData second
           /\ exists findings,
               Rule_apply sourceFile = Normal findings
               /\ forall f name,
                   In f findings ->
                   failureMessage f = (failureText c ++ name)%string ->
                   exists member,
                     In member (members second)
                     /\ typeElementNameText member = Some name
                     /\ f = createFailure (getStart member) (getWidth member)
                                          (failureText c ++ name)).
Proof.
  intros c. split.
  - intros w parent second Hd.
    destruct (declared_fields c w parent second Hd) as [Hnodes Hnames].
    split; [assumption|]. split; [assumption|].
    intros name. rewrite Hnames. apply getTypeElementData_keys.
  - intros sourceFile before after second Hjsx Hstmts Hd Hbody Hafter Hclasses.
    set (D := getTypeElementData second).
    set (Inv := fun w => memberNodes c w = D
                         /\ Shrinks (unusedNames c w) (JsObject.keys D)).
    assert (Hnotclass : isClassDeclaration second = false).
    { unfold isClassDeclaration. now rewrite (declares_kind _ _ Hd). }
    set (w0 := fold_left (fun acc child => visitNode acc ParentSourceFile child)
                         before newWalker).
    assert (Hw1 : Inv (visitNode w0 ParentSourceFile second)).
    { rewrite visitNode_unfold, Hnotclass. apply Replaced_leave.
      apply (walkChildren_invariant Inv (declaresNot c)); try assumption.
      - intros w p n Hok _. now apply Replaced_enter.
      - intros w p n _. apply Replaced_leave.
      - intros w p n _ _. apply Replaced_class.
      - destruct (declared_fields c w0 ParentSourceFile second Hd) as [Hnodes Hnames].
        split; [exact Hnodes | rewrite Hnames; apply Shrinks_refl]. }
    assert (Hw2 : Inv (collect newWalker sourceFile)).
    { unfold collect. rewrite Hstmts, fold_left_app. simpl.
      apply (visitList_invariant Inv (declaresNot c)); try assumption.
      - intros w p n Hok _. now apply Replaced_enter.
      - intros w p n _. apply Replaced_leave.
      - intros w p n _ _. apply Replaced_class. }
    assert (Hfinal : Inv (analyzed sourceFile)).
    { unfold analyzed, analyze. case_if; [|assumption].
      rewrite classDeclarations_collect.
      apply (scan_invariant Inv (declaresNot c)); try assumption.
      - intros w p n Hok _. now apply Replaced_enter.
      - intros w p n _. apply Replaced_leave.
      - intros w p n _ _. apply Replaced_class. }
    destruct Hfinal as [Hnodes Hnames].
    split; [exact Hnodes|].
    destruct (Rule_apply_JSX sourceFile Hjsx) as [ps [ss [Hrun [Hps Hss]]]].
    exists (ps ++ ss). split; [assumption|].
    assert (Hone : forall c' nodes names fs f name,
               Forall2 (reported (failureText c') nodes) names fs ->
               In f fs ->
               failureMessage f = (failureText c ++ name)%string ->
               c' = c
               /\ exists te, JsObject.get nodes name = Some te
                             /\ f = createFailure (getStart te) (getWidth te)
                                                  (failureText c ++ name)).
    { intros c' nodes names fs f name Hall.
      induction Hall as [|name' f' names fs Hf _ IH]; intros Hin Hmsg; [destruct Hin|].
      destruct Hin as [<- | Hin]; [|now apply IH].
      destruct Hf as [te [Hte Hf]]. rewrite Hf in Hmsg. simpl in Hmsg.
      pose proof (failureText_distinct _ _ _ _ Hmsg) as Hc. subst c'.
      apply append_inj_l in Hmsg. subst name'.
      split; [reflexivity|]. exists te. now split. }
    intros f name Hin Hmsg.
    assert (Hfound : exists te, JsObject.get D name = Some te
                                /\ f = createFailure (getStart te) (getWidth te)
                                                     (failureText c ++ name)).
    { apply in_app_iff in Hin as [Hin | Hin].
      - destruct (Hone PropsContract _ _ ps f name Hps Hin Hmsg) as [<- [te [Hte Hf]]].
        exists te. simpl in Hnodes. rewrite <- Hnodes. now split.
      - destruct (Hone StateContract _ _ ss f name Hss Hin Hmsg) as [<- [te [Hte Hf]]].
        exists te. simpl in Hnodes. rewrite <- Hnodes. now split. }
    destruct Hfound as [te [Hte Hf]].
    apply getTypeElementData_entry in Hte as (Hmember & Hname & _).
    now exists te.
Qed.

Lemma C8_witness :
  memberNodes PropsContract
              (analyzed (mkSourceFile JSX [redeclaredFirst; redeclaredUse; redeclaredSecond]))
  = getTypeElementData redeclaredSecond.
Proof.
  refine (proj1 (proj2 (C8_second_declaration_replaces_first PropsContract)
                   (mkSourceFile JSX [redeclaredFirst; redeclaredUse; redeclaredSecond])
                   [redeclaredFirst; redeclaredUse] [] redeclaredSecond
                   eq_refl eq_refl eq_refl eq_refl eq_refl _)).
  intros cl Hcl. vm_compute in Hcl. destruct Hcl.
Defined.

(** ** C1: one member read, one member left *)









Section OneMemberLeft.
Variable aliases : list string.
Variable D : JsObject.t.
Variable a b : string.








End OneMemberLeft.




(** ** C10: the alias is matched as text *)

(** An alias with a [$] in it is found in no text: its reads go unseen. *)
Lemma dollar_alias_reads_nothing (w : Walker) (alias text : string) :
  lacks "$" alias = false ->
  (propsAlias w = Some alias -> readPropsAlias w text = w)
  /\ (stateAlias w = Some alias -> readStateAlias w text = w).
Proof.
  intros Hdollar. split; intros Halias.
  - unfold readPropsAlias. now rewrite Halias, JSFacts.test_alias_dollar.
  - unfold readStateAlias. now rewrite Halias, JSFacts.test_alias_dollar.
Qed.

(** C10, at the failing input.  With the parameter named [$p] the pattern
    built from the alias does not match the text [$p.x], the read leaves
    [x] in the Props unused set and the run reports [x]; with the parameter
    named [p] the same file has no finding.  The identifier [$p] on its own
    is still recognised, by comparison of texts. *)
Theorem C10_dollar_alias_read_is_missed :
  JS.test (aliasPattern "$p") "$p.x" = false
  /\ propNames (visitNode (set_propsAlias (set_propNames newWalker ["x"]) (Some "$p"))
                          ParentSourceFile (Syntax.aliasRead 85 "$p" "x")) = ["x"]
  /\ Rule_apply (mkSourceFile JSX [propsX; classReadingThrough "$p"])
     = Normal [createFailure 18 10 "Unused React property defined in interface: x"]
  /\ Rule_apply (mkSourceFile JSX [propsX; classReadingThrough "p"]) = Normal []
  /\ propNames (visitNode (set_propsAlias (set_propNames newWalker ["x"]) (Some "$p"))
                          ParentSourceFile (Syntax.identifier 85 "$p")) = [].
Proof. vm_compute. repeat split; reflexivity. Qed.

(** ** Further properties: the member map *)

Lemma collectMembers_skip (ms : list Node) (k : string) :
  forall o,
    (forall m, In m ms -> typeElementNameText m <> Some k) ->
    JsObject.get (fold_left collectMember ms o) k = JsObject.get o k.
Proof.
  induction ms as [|m ms IH]; intros o Hskip; simpl; [reflexivity|].
  rewrite IH by (intros m' Hm'; apply Hskip; now right).
  unfold collectMember.
  destruct (typeElementNameText m) as [k'|] eqn:Hm; [|reflexivity].
  unfold JsObject.set. destruct (String.eqb k' "__proto__"); [reflexivity|].
  apply get_put_other. intros ->. now apply (Hskip m (or_introl eq_refl)).
Qed.

(** X6.  [getTypeElementData] maps a name to the last member of the
    interface that has this name text: a later member of the same name
    overwrites an earlier one.  A name that no member has is not a key, the
    name [__proto__] is never a key, and no key is listed twice. *)
Theorem X6_member_map_holds_the_last_member :
  (forall (node : Node) (earlier later : list Node) (typeElement : Node) (name : string),
      members node = earlier ++ typeElement :: later ->
      typeElementNameText typeElement = Some name ->
      name <> "__proto__" ->
      (forall m, In m later -> typeElementNameText m <> Some name) ->
      JsObject.get (getTypeElementData node) name = Some typeElement
      /\ In name (JsObject.keys (getTypeElementData node)))
  /\ (forall (node : Node) (name : string),
         (forall m, In m (members node) -> typeElementNameText m <> Some name) ->
         JsObject.get (getTypeElementData node) name = None
         /\ ~ In name (JsObject.keys (getTypeElementData node)))
  /\ (forall node : Node,
         ~ In "__proto__" (JsObject.keys (getTypeElementData node))
         /\ NoDup (JsObject.keys (getTypeElementData node))).
Proof.
  split; [|split].
  - intros node earlier later typeElement name Hmembers Hname Hproto Hlater.
    assert (Hget : JsObject.get (getTypeElementData node) name = Some typeElement).
    { rewrite getTypeElementData_fold, Hmembers, fold_left_app. simpl.
      rewrite collectMembers_skip by assumption.
      unfold collectMember. rewrite Hname. unfold JsObject.set.
      apply String.eqb_neq in Hproto. rewrite Hproto.
      apply get_put_same. }
    split; [assumption|]. apply keys_get. now exists typeElement.
  - intros node name Hnone.
    assert (Hget : JsObject.get (getTypeElementData node) name = None).
    { rewrite getTypeElementData_fold, collectMembers_skip by assumption. reflexivity. }
    split; [assumption|]. rewrite keys_get. intros [te Hte]. congruence.
  - intros node. split.
    + rewrite keys_get. intros [te Hte].
      apply getTypeElementData_entry in Hte as (_ & _ & Hproto). now apply Hproto.
    + apply NoDup_keys, getTypeElementData_NoDup.
Qed.

Lemma X6_witness :
  JsObject.get (getTypeElementData sampleProps) "b" = Some (Syntax.propertySignature 30 "b")
  /\ In "b" (JsObject.keys (getTypeElementData sampleProps)).
Proof.
  apply (proj1 X6_member_map_holds_the_last_member sampleProps
               [Syntax.propertySignature 18 "a"] [] (Syntax.propertySignature 30 "b") "b").
  - reflexivity.
  - reflexivity.
  - discriminate.
  - intros m [].
Defined.

(** ** Further properties: the unused sets and the member maps *)

Lemma Listed_enter w p n : Listed w -> Listed (enter w p n).
Proof.
  intros (Hp & Hs & Hnp & Hns).
  destruct (nodes_enter w p n) as [Hpn Hsn].
  assert (Hkind : forall c, declares c n = true -> kind n = InterfaceDeclaration).
  { intros c Hd. unfold declares in Hd. unfold kind.
    destruct (data n); try discriminate; reflexivity. }
  assert (Hpart :
    (Shrinks (propNames (enter w p n)) (JsObject.keys (propNodes (enter w p n)))
     /\ NoDup (map fst (propNodes (enter w p n))))
    /\ (Shrinks (stateNames (enter w p n)) (JsObject.keys (stateNodes (enter w p n)))
        /\ NoDup (map fst (stateNodes (enter w p n))))).
  { split.
    - destruct (declares "Props" n) eqn:Hd.
      + unfold enter. rewrite (Hkind _ Hd).
        destruct (declareContracts_props w n Hd) as [-> ->].
        split; [apply Shrinks_refl | apply getTypeElementData_NoDup].
      + rewrite (Hpn eq_refl). split; [|assumption].
        eapply Shrinks_trans; [|exact Hp].
        apply (unusedNames_enter PropsContract w p n).
        unfold declaresNot. simpl. now rewrite Hd.
    - destruct (declares "State" n) eqn:Hd.
      + unfold enter. rewrite (Hkind _ Hd).
        destruct (declareContracts_state w n Hd) as [-> ->].
        split; [apply Shrinks_refl | apply getTypeElementData_NoDup].
      + rewrite (Hsn eq_refl). split; [|assumption].
        eapply Shrinks_trans; [|exact Hs].
        apply (unusedNames_enter StateContract w p n).
        unfold declaresNot. simpl. now rewrite Hd. }
  destruct Hpart as [[A B] [C D]]. repeat split; assumption.
Qed.

Lemma Listed_leave w n : Listed w -> Listed (leave n w).
Proof. intros H. unfold leave. destruct (kind n); exact H. Qed.

Lemma Listed_visitNode n p w : Listed w -> Listed (visitNode w p n).
Proof.
  apply (visitNode_invariant Listed (fun _ _ => true)).
  - intros; now apply Listed_enter.
  - intros; now apply Listed_leave.
  - intros w0 p0 n0 _ _ Hw; exact Hw.
  - apply everywhere_true.
Qed.

Lemma Listed_visitList l p w :
  Listed w -> Listed (fold_left (fun acc child => visitNode acc p child) l w).
Proof.
  revert w. induction l as [|c l IH]; intros w Hw; simpl; [assumption|].
  apply IH. now apply Listed_visitNode.
Qed.

Lemma Listed_analyzed sf : Listed (analyzed sf).
Proof.
  unfold analyzed, analyze.
  assert (Hc : Listed (collect newWalker sf)).
  { apply Listed_visitList. repeat split; try apply Shrinks_refl; constructor. }
  case_if; [|assumption].
  assert (Hscan : forall l w, Listed w -> Listed (fold_left walkChildren l w)).
  { induction l as [|c l IH]; intros w Hw; simpl; [assumption|].
    apply IH. now apply Listed_visitList. }
  now apply Hscan.
Qed.

(** X5.  A visit keeps this invariant: each unused set is the list of keys
    of its member map with some keys taken out, so its names are declared
    members, in the order of [Object.keys], and none is listed twice.  It
    holds when the report starts. *)
Theorem X5_unused_names_are_keys_in_order :
  (forall (w : Walker) (parent : Parent) (node : Node),
      Listed w -> Listed (visitNode w parent node))
  /\ (forall (sourceFile : SourceFileNode) (c : Contract),
         Shrinks (unusedNames c (analyzed sourceFile))
                 (JsObject.keys (memberNodes c (analyzed sourceFile)))
         /\ NoDup (unusedNames c (analyzed sourceFile))).
Proof.
  split.
  - intros w parent node. apply Listed_visitNode.
  - intros sourceFile c.
    destruct (Listed_analyzed sourceFile) as (Hp & Hs & Hnp & Hns).
    destruct c; simpl; (split; [assumption|]);
      (eapply Shrinks_NoDup; [eassumption|]); now apply NoDup_keys.
Qed.

Lemma X5_witness :
  Listed (visitNode (visitNode newWalker ParentSourceFile sampleProps)
                    ParentSourceFile redeclaredUse).
Proof.
  apply (proj1 X5_unused_names_are_keys_in_order).
  vm_compute. repeat split; try (exists (fun _ => true); reflexivity);
    repeat constructor; simpl; intuition discriminate.
Defined.

(** ** Further properties: the findings *)

Lemma reported_messages message nodes names fs :
  Forall2 (reported message nodes) names fs ->
  map failureMessage fs = map (fun name => (message ++ name)%string) names
  /\ List.length fs = List.length names.
Proof.
  induction 1 as [|name f names fs Hf _ [IHm IHl]]; [split; reflexivity|].
  destruct Hf as [te [_ ->]]. simpl. now rewrite IHm, IHl.
Qed.

Lemma NoDup_messages message names :
  NoDup names -> NoDup (map (fun name => (message ++ name)%string) names).
Proof.
  induction 1 as [|name names Hnotin _ IH]; simpl; constructor; [|assumption].
  rewrite in_map_iff. intros [name' [Heq Hin]].
  apply append_inj_l in Heq. subst name'. contradiction.
Qed.

(** X4.  The findings of a JSX file are one finding for each name left in
    the Props unused set, followed by one for each name left in the State
    unused set, each with the span of the declaration node its map holds
    for the name; there are as many findings as names left, and no two
    findings carry the same message. *)
Theorem X4_one_finding_for_each_name_left :
  forall sourceFile : SourceFileNode,
    languageVariant sourceFile = JSX ->
    exists propFindings stateFindings,
      Rule_apply sourceFile = Normal (propFindings ++ stateFindings)
      /\ Forall2 (reported FAILURE_UNUSED_PROP (propNodes (analyzed sourceFile)))
                 (propNames (analyzed sourceFile)) propFindings
      /\ Forall2 (reported FAILURE_UNUSED_STATE (stateNodes (analyzed sourceFile)))
                 (stateNames (analyzed sourceFile)) stateFindings
      /\ List.length (propFindings ++ stateFindings)
         = List.length (propNames (analyzed sourceFile))
           + List.length (stateNames (analyzed sourceFile))
      /\ NoDup (map failureMessage (propFindings ++ stateFindings)).
Proof.
  intros sourceFile Hjsx.
  destruct (Rule_apply_JSX sourceFile Hjsx) as [ps [ss [Hrun [Hps Hss]]]].
  exists ps, ss. repeat split; try assumption.
  - rewrite length_app.
    destruct (reported_messages _ _ _ _ Hps) as [_ ->].
    destruct (reported_messages _ _ _ _ Hss) as [_ ->]. reflexivity.
  - destruct (reported_messages _ _ _ _ Hps) as [Hmp _].
    destruct (reported_messages _ _ _ _ Hss) as [Hms _].
    destruct (Listed_analyzed sourceFile) as (Hp & Hs & Hnp & Hns).
    rewrite map_app, Hmp, Hms.
    apply NoDup_app.
    + apply NoDup_messages. eapply Shrinks_NoDup; [eassumption|]. now apply NoDup_keys.
    + apply NoDup_messages. eapply Shrinks_NoDup; [eassumption|]. now apply NoDup_keys.
    + intros m H1 H2.
      apply in_map_iff in H1 as [n1 [<- _]]. apply in_map_iff in H2 as [n2 [Heq _]].
      apply (failureText_distinct StateContract PropsContract) in Heq. discriminate.
Qed.

Lemma X4_witness :
  exists propFindings stateFindings,
    Rule_apply (mkSourceFile JSX [sampleProps; stateInterface; sampleClass])
    = Normal (propFindings ++ stateFindings)
    /\ List.length (propFindings ++ stateFindings) = 2.
Proof.
  destruct (X4_one_finding_for_each_name_left
              (mkSourceFile JSX [sampleProps; stateInterface; sampleClass]) eq_refl)
    as [ps [ss [Hrun [_ [_ [Hlen _]]]]]].
  exists ps, ss. split; [exact Hrun | exact Hlen].
Defined.

Lemma outsideClasses_unfold ok parent node :
  outsideClasses ok parent node
  = isClassDeclaration node
    || (ok parent node
        && forallb (outsideClasses ok (ParentNode node)) (children node)).
Proof. destruct node; reflexivity. Qed.

(** The first phase shrinks the sets when no interface outside the class
    declarations declares a contract. *)
Lemma ShrunkFrom_outside n :
  forall p w, outsideClasses declaresNoContract p n = true -> ShrunkFrom w (visitNode w p n).
Proof.
  induction n as [d s wd t cs IH] using Node_children_ind.
  intros p w Hok. rewrite visitNode_unfold.
  rewrite outsideClasses_unfold in Hok.
  destruct (isClassDeclaration _) eqn:Hc.
  - split; apply Shrinks_refl.
  - simpl in Hok. apply andb_true_iff in Hok as [Hhere Hbelow].
    eapply ShrunkFrom_trans; [|apply ShrunkFrom_leave].
    unfold walkChildren.
    remember (mkNode d s wd t cs) as node eqn:Hnode.
    assert (Hstart : ShrunkFrom w (enter w p node)) by now apply ShrunkFrom_enter.
    replace (children node) with cs in * by now subst node.
    clear Hnode Hhere Hc.
    revert Hbelow Hstart. generalize (enter w p node) as w0.
    induction IH as [|c cs' Hc _ IHcs]; intros w0 Hbelow Hstart; simpl.
    + assumption.
    + simpl in Hbelow. apply andb_true_iff in Hbelow as [H1 H2].
      apply IHcs; [assumption|].
      eapply ShrunkFrom_trans; [exact Hstart | now apply Hc].
Qed.

Lemma ShrunkFrom_outside_list l p :
  forall w, forallb (outsideClasses declaresNoContract p) l = true ->
            ShrunkFrom w (fold_left (fun acc child => visitNode acc p child) l w).
Proof.
  induction l as [|c l IH]; intros w Hl; simpl; [apply ShrunkFrom_refl|].
  simpl in Hl. apply andb_true_iff in Hl as [H1 H2].
  eapply ShrunkFrom_trans; [|now apply IH]. now apply ShrunkFrom_outside.
Qed.

(** X3.  When no interface named Props or State stands outside the class
    declarations of a file, the file has no finding and its classes are
    not scanned: the second phase leaves the walker of the first as it is,
    with both unused sets empty.  An interface declared inside a class,
    in the body of a method, is never met, whatever the class reads. *)
Theorem X3_no_contract_outside_classes_no_findings :
  forall sourceFile : SourceFileNode,
    forallb (outsideClasses declaresNoContract ParentSourceFile) (statements sourceFile)
    = true ->
    Rule_apply sourceFile = Normal []
    /\ analyzed sourceFile = collect newWalker sourceFile
    /\ propNames (analyzed sourceFile) = []
    /\ stateNames (analyzed sourceFile) = [].
Proof.
  intros sourceFile Hnone.
  assert (Hempty : propNames (collect newWalker sourceFile) = []
                   /\ stateNames (collect newWalker sourceFile) = []).
  { destruct (ShrunkFrom_outside_list (statements sourceFile) ParentSourceFile newWalker Hnone)
      as [Hp Hs].
    split; now apply Shrinks_empty. }
  destruct Hempty as [Hp Hs].
  assert (Hsame : analyzed sourceFile = collect newWalker sourceFile).
  { unfold analyzed, analyze. now rewrite Hp, Hs. }
  split; [|split; [assumption | rewrite Hsame; now split]].
  unfold Rule_apply, Rule_apply_with.
  destruct (languageVariant sourceFile); [reflexivity|].
  unfold applyWithWalker, visitSourceFile. fold (analyzed sourceFile).
  rewrite Hsame. unfold report. rewrite Hp. simpl. rewrite Hs. simpl.
  unfold collect. now rewrite failures_visitList.
Qed.

Lemma X3_witness :
  Rule_apply (mkSourceFile JSX [redeclaredUse; escapeThenDeclare]) = Normal [].
Proof.
  apply (X3_no_contract_outside_classes_no_findings
           (mkSourceFile JSX [redeclaredUse; escapeThenDeclare])).
  reflexivity.
Defined.

(** ** Further properties: the class queue *)

Ltac hook_cases :=
  repeat match goal with
         | |- context [match ?x with Some _ => _ | None => _ end] =>
             is_var x; destruct x; simpl
         | |- context [if ?x then _ else _] =>
             match type of x with bool => destruct x; simpl end
         | |- context [match parameters ?n with [] => _ | _ :: _ => _ end] =>
             destruct (parameters n) as [|? [|? ?]]; simpl
         end;
  reflexivity.

Lemma queue_enter w q p n :
  enter (set_classDeclarations w q) p n = set_classDeclarations (enter w p n) q.
Proof.
  unfold enter. destruct (kind n); try reflexivity; destruct w.
  - unfold declareContracts; simpl; hook_cases.
  - unfold enterConstructor; simpl; hook_cases.
  - unfold enterMethod.
    destruct (parameters n) as [|a [|b l]];
      destruct (testAlternation propsHookPatterns (methodName n));
      destruct (testAlternation stateHookPatterns (methodName n)); reflexivity.
  - unfold accessProperty, escapeCanonical, readStateAlias, readPropsAlias, readCanonical;
      simpl; hook_cases.
  - unfold referIdentifier, escapeStateAlias, escapePropsAlias; simpl; hook_cases.
Qed.

Lemma queue_leave w q n :
  leave n (set_classDeclarations w q) = set_classDeclarations (leave n w) q.
Proof. unfold leave. destruct (kind n); destruct w; reflexivity. Qed.

(** What a visit does to the other fields does not depend on the queue. *)
Lemma queue_visitNode n :
  forall p w q,
    visitNode (set_classDeclarations w q) p n
    = set_classDeclarations (visitNode w p n) (q ++ classesOf n).
Proof.
  induction n as [d s wd t cs IH] using Node_children_ind.
  intros p w q. rewrite !visitNode_unfold, classesOf_unfold.
  case_if.
  - unfold visitClassDeclaration. destruct w; reflexivity.
  - rewrite queue_enter.
    remember (mkNode d s wd t cs) as node eqn:Hnode.
    assert (Hcs : children node = cs) by now subst node.
    unfold walkChildren. rewrite Hcs.
    generalize (enter w p node) as w0. generalize (ParentNode node) as parent.
    clear Hnode Hcs. revert q.
    induction IH as [|c cs' Hc _ IHcs]; intros q parent w0; simpl.
    + rewrite app_nil_r. apply queue_leave.
    + rewrite Hc, IHcs. now rewrite <- app_assoc.
Qed.

Lemma set_classDeclarations_same w : set_classDeclarations w (classDeclarations w) = w.
Proof. now destruct w. Qed.

(** X1.  The first phase queues, in source order, the class declarations
    that lie outside every other class declaration, and walks none of
    them; a visit adds to the queue the class declarations it comes to. *)
Theorem X1_queue_holds_the_outermost_classes :
  (forall (w : Walker) (parent : Parent) (node : Node),
      classDeclarations (visitNode w parent node) = classDeclarations w ++ classesOf node)
  /\ (forall sourceFile : SourceFileNode,
         classDeclarations (collect newWalker sourceFile) = scannedClasses sourceFile)
  /\ (forall (w : Walker) (parent : Parent) (node : Node),
         isClassDeclaration node = true ->
         classesOf node = [node]
         /\ visitNode w parent node
            = set_classDeclarations w (classDeclarations w ++ [node])).
Proof.
  split; [|split].
  - intros w parent node. apply classDeclarations_visitNode.
  - apply classDeclarations_collect.
  - intros w parent node Hclass.
    rewrite classesOf_unfold, visitNode_unfold, Hclass. split; reflexivity.
Qed.

Lemma X1_witness :
  classesOf escapeInInnerClass = [escapeInInnerClass].
Proof.
  apply (proj2 (proj2 X1_queue_holds_the_outermost_classes)
               newWalker ParentSourceFile escapeInInnerClass).
  reflexivity.
Defined.

Lemma collect_without_classes (l : list Node) :
  forall w q,
    fold_left (fun acc child => visitNode acc ParentSourceFile child) l
              (set_classDeclarations w q)
    = set_classDeclarations
        (fold_left (fun acc child => visitNode acc ParentSourceFile child)
                   (filter (fun node => negb (isClassDeclaration node)) l) w)
        (q ++ flat_map classesOf l).
Proof.
  induction l as [|n l IH]; intros w q; simpl.
  - now rewrite app_nil_r.
  - destruct (isClassDeclaration n) eqn:Hc; simpl.
    + rewrite visitNode_unfold, Hc. unfold visitClassDeclaration.
      replace (set_classDeclarations (set_classDeclarations w q)
                 (classDeclarations (set_classDeclarations w q) ++ [n]))
        with (set_classDeclarations w (q ++ [n])) by now destruct w.
      rewrite IH, classesOf_unfold, Hc. now rewrite <- app_assoc.
    + rewrite queue_visitNode, IH. now rewrite <- app_assoc.
Qed.

(** X2.  The first phase does not look into a class declaration, so what
    it leaves behind does not depend on where the classes stand among the
    statements: the walker after it is the walker after the first phase on
    the file with these class declarations blanked out, but for the queue,
    which holds the classes in source order.  Whether the classes are
    scanned is decided on the file without them, and a class is checked
    against the interfaces declared after it as against those declared
    before it. *)
Theorem X2_first_phase_passes_over_classes :
  forall sourceFile : SourceFileNode,
    (forall w : Walker,
        collect w sourceFile
        = set_classDeclarations (collect w (withoutClasses sourceFile))
                                (classDeclarations w ++ scannedClasses sourceFile))
    /\ analyzed sourceFile
       = if ((0 <? List.length (propNames (collect newWalker (withoutClasses sourceFile))))
             || (0 <? List.length (stateNames (collect newWalker (withoutClasses sourceFile)))))%nat
         then fold_left walkChildren (scannedClasses sourceFile)
                        (collect newWalker sourceFile)
         else collect newWalker sourceFile.
Proof.
  intros sourceFile.
  assert (Hfirst : forall w : Walker,
             collect w sourceFile
             = set_classDeclarations (collect w (withoutClasses sourceFile))
                                     (classDeclarations w ++ scannedClasses sourceFile)).
  { intros w. unfold collect, withoutClasses, scannedClasses. simpl.
    rewrite <- (set_classDeclarations_same w) at 1.
    apply collect_without_classes. }
  split; [exact Hfirst|].
  unfold analyzed, analyze. rewrite classDeclarations_collect.
  rewrite (Hfirst newWalker) at 1 2.
  now destruct (collect newWalker (withoutClasses sourceFile)).
Qed.

(** ** Further properties: alias scopes *)

Lemma Unbound_scan l w : Unbound w -> Unbound (fold_left walkChildren l w).
Proof.
  revert w. induction l as [|c l IH]; intros w Hw; simpl; [assumption|].
  apply IH. now apply Unbound_visitList.
Qed.

(** X7.  No alias outlives its scope.  After the visit of a method
    declaration, lifecycle hook or not, both aliases are unset, whatever
    they were before; after the visit of a constructor the props alias is
    unset.  A visit that starts with no alias bound ends with no alias
    bound, so none is bound between two statements, between two members of
    a class, or when the report starts. *)
Theorem X7_aliases_do_not_outlive_their_scope :
  (forall (w : Walker) (parent : Parent) (node : Node),
      kind node = MethodDeclaration ->
      propsAlias (visitNode w parent node) = None
      /\ stateAlias (visitNode w parent node) = None)
  /\ (forall (w : Walker) (parent : Parent) (node : Node),
         kind node = Constructor ->
         propsAlias (visitNode w parent node) = None)
  /\ (forall (w : Walker) (parent : Parent) (node : Node),
         Unbound w -> Unbound (visitNode w parent node))
  /\ (forall sourceFile : SourceFileNode,
         Unbound (collect newWalker sourceFile) /\ Unbound (analyzed sourceFile)).
Proof.
  split; [|split; [|split]].
  - intros w parent node Hkind. rewrite visitNode_unfold.
    unfold isClassDeclaration, leave. rewrite Hkind. simpl. split; reflexivity.
  - intros w parent node Hkind. rewrite visitNode_unfold.
    unfold isClassDeclaration, leave. rewrite Hkind. reflexivity.
  - intros w parent node. apply Unbound_visitNode.
  - intros sourceFile.
    assert (Hc : Unbound (collect newWalker sourceFile))
      by apply Unbound_visitList, Unbound_newWalker.
    split; [assumption|].
    unfold analyzed, analyze. case_if; [now apply Unbound_scan | assumption].
Qed.

Lemma X7_witness :
  propsAlias (visitNode (set_propsAlias newWalker (Some "props")) ParentSourceFile
                        (Syntax.method 88 6 "m" [] [])) = None
  /\ stateAlias (visitNode (set_propsAlias newWalker (Some "props")) ParentSourceFile
                           (Syntax.method 88 6 "m" [] [])) = None.
Proof.
  apply (proj1 X7_aliases_do_not_outlive_their_scope
               (set_propsAlias newWalker (Some "props")) ParentSourceFile
               (Syntax.method 88 6 "m" [] [])).
  reflexivity.
Defined.

(** ** Further properties: reads of plain member names *)

Lemma lacks_app_dot (x post : string) : lacks "." (x ++ "." ++ post) = false.
Proof.
  destruct (lacks "." (x ++ "." ++ post)) eqn:E; [|reflexivity].
  apply JSFacts.lacks_occurrences in E.
  rewrite !JSFacts.occurrences_app in E.
  change (occurrences "." ".") with 1 in E. lia.
Qed.

(** A dot at index [n] or later is still there after [substring n]. *)
Lemma substring_keeps_dot (n : nat) :
  forall x post : string,
    n <= String.length x -> lacks "." (JS.substring n (x ++ "." ++ post)) = false.
Proof.
  induction n as [|n IH]; intros x post Hlen.
  - change (JS.substring 0 (x ++ "." ++ post)) with (x ++ "." ++ post)%string.
    apply lacks_app_dot.
  - destruct x as [|c x]; [simpl in Hlen; lia|].
    change (JS.substring (S n) (String c x ++ "." ++ post))
      with (JS.substring n (x ++ "." ++ post)).
    apply IH. simpl in Hlen. lia.
Qed.

Lemma length_append (a b : string) :
  String.length (a ++ b) = String.length a + String.length b.
Proof. induction a as [|c a IH]; simpl; [reflexivity | now rewrite IH]. Qed.

Lemma append_assoc (a b c : string) : ((a ++ b) ++ c = a ++ b ++ c)%string.
Proof. induction a as [|d a IH]; simpl; [reflexivity | now rewrite IH]. Qed.

(** When [a.] is found in a text and what follows index [|a|] holds no
    dot, the text starts with [a.]. *)
Lemma test_literal_exact (a t : string) :
  JS.test (JS.literal (a ++ ".")) t = true ->
  lacks "." (JS.substring (String.length a + 1) t) = true ->
  t = (a ++ "." ++ JS.substring (String.length a + 1) t)%string.
Proof.
  intros Htest Hplain.
  apply JSFacts.test_literal_inv in Htest as [pre [post ->]].
  destruct pre as [|c pre].
  - change ("" ++ (a ++ ".") ++ post)%string with ((a ++ ".") ++ post)%string.
    rewrite append_assoc. now rewrite JSFacts.substring_after_dot.
  - exfalso.
    replace (String c pre ++ (a ++ ".") ++ post)%string
      with ((String c pre ++ a) ++ "." ++ post)%string in Hplain
      by now rewrite !append_assoc.
    rewrite substring_keeps_dot in Hplain; [discriminate|].
    rewrite length_append. simpl. lia.
Qed.

Lemma test_alias_exact (alias t : string) :
  JS.test (aliasPattern alias) t = true ->
  lacks "." (JS.substring (String.length alias + 1) t) = true ->
  t = (alias ++ "." ++ JS.substring (String.length alias + 1) t)%string.
Proof.
  intros Htest Hplain.
  destruct (lacks "$" alias) eqn:Hdollar.
  - apply test_literal_exact; [|assumption].
    unfold aliasPattern in Htest.
    now rewrite JSFacts.interpolated_lacks, <- JSFacts.literal_app in Htest.
  - now rewrite JSFacts.test_alias_dollar in Htest.
Qed.

Lemma removed_is_the_element (l : list string) (e m : string) :
  In m l -> ~ In m (Utils_remove l e) -> m = e.
Proof.
  intros Hin Hout. destruct (string_dec m e) as [|Hne]; [assumption|].
  exfalso. apply Hout. apply in_Utils_remove. now split.
Qed.

Lemma readCanonical_exact c w t m :
  lacks "." m = true ->
  In m (unusedNames c w) -> ~ In m (unusedNames c (readCanonical w t)) ->
  t = (canonicalRoot c ++ "." ++ m)%string.
Proof.
  intros Hplain Hin Hout. unfold readCanonical in Hout.
  destruct (JS.test thisPropsPattern t) eqn:Hp;
    [|destruct (JS.test thisStatePattern t) eqn:Hs];
    destruct c; cbn [unusedNames propNames stateNames set_propNames set_stateNames] in *;
    try contradiction.
  - apply removed_is_the_element in Hout; [|assumption]. subst m.
    exact (test_literal_exact "this.props" t Hp Hplain).
  - apply removed_is_the_element in Hout; [|assumption]. subst m.
    exact (test_literal_exact "this.state" t Hs Hplain).
Qed.

Lemma readPropsAlias_exact c w t m :
  lacks "." m = true ->
  In m (unusedNames c w) -> ~ In m (unusedNames c (readPropsAlias w t)) ->
  exists alias, aliasOf c w = Some alias /\ t = (alias ++ "." ++ m)%string.
Proof.
  intros Hplain Hin Hout. unfold readPropsAlias in Hout.
  destruct (propsAlias w) as [alias|] eqn:Halias; [|contradiction].
  destruct (JS.test (aliasPattern alias) t) eqn:Ht; [|contradiction].
  destruct c; cbn [unusedNames propNames stateNames set_propNames aliasOf] in *;
    [|contradiction].
  apply removed_is_the_element in Hout; [|assumption]. subst m.
  exists alias. split; [assumption|]. now apply test_alias_exact.
Qed.

Lemma readStateAlias_exact c w t m :
  lacks "." m = true ->
  In m (unusedNames c w) -> ~ In m (unusedNames c (readStateAlias w t)) ->
  exists alias, aliasOf c w = Some alias /\ t = (alias ++ "." ++ m)%string.
Proof.
  intros Hplain Hin Hout. unfold readStateAlias in Hout.
  destruct (stateAlias w) as [alias|] eqn:Halias; [|contradiction].
  destruct (JS.test (aliasPattern alias) t) eqn:Ht; [|contradiction].
  destruct c; cbn [unusedNames propNames stateNames set_stateNames aliasOf] in *;
    [contradiction|].
  apply removed_is_the_element in Hout; [|assumption]. subst m.
  exists alias. split; [assumption|]. now apply test_alias_exact.
Qed.

Lemma escapeCanonical_exact c w p t m :
  In m (unusedNames c w) -> ~ In m (unusedNames c (escapeCanonical w p t)) ->
  negb (SyntaxKind_eqb (parentKind p) PropertyAccessExpression) = true
  /\ t = canonicalRoot c.
Proof.
  intros Hin Hout. unfold escapeCanonical in Hout.
  destruct (negb _); [|contradiction].
  destruct (String.eqb t "this.props") eqn:Hp;
    [|destruct (String.eqb t "this.state") eqn:Hs];
    destruct c; cbn [unusedNames propNames stateNames set_propNames set_stateNames] in *;
    try contradiction.
  - apply String.eqb_eq in Hp. now split.
  - apply String.eqb_eq in Hs. now split.
Qed.

Lemma aliasOf_readCanonical c w t : aliasOf c (readCanonical w t) = aliasOf c w.
Proof. destruct (aliases_readCanonical w t). now destruct c. Qed.

Lemma aliasOf_readPropsAlias c w t : aliasOf c (readPropsAlias w t) = aliasOf c w.
Proof. destruct (aliases_readPropsAlias w t). now destruct c. Qed.

(** X9.  A property access takes a member name without a dot out of an
    unused set only in three cases: its text is exactly [this.props.m]
    ([this.state.m]); its text is exactly [alias.m] for the alias bound at
    that point; or it is [this.props] ([this.state]) used as a value.
    Texts in which the patterns are found further right, such as
    [other.this.props.m] or [xprops.m] under the alias [props], take no
    such name out, although the patterns are not anchored. *)
Theorem X9_plain_name_leaves_only_when_read :
  forall (c : Contract) (w : Walker) (parent : Parent) (node : Node) (m : string),
    kind node = PropertyAccessExpression ->
    lacks "." m = true ->
    In m (unusedNames c w) ->
    ~ In m (unusedNames c (enter w parent node)) ->
    getText node = (canonicalRoot c ++ "." ++ m)%string
    \/ (exists alias, aliasOf c w = Some alias
                      /\ getText node = (alias ++ "." ++ m)%string)
    \/ escapes c parent node = true.
Proof.
  intros c w parent node m Hkind Hplain Hin Hout.
  unfold enter in Hout. rewrite Hkind in Hout. unfold accessProperty in Hout.
  set (t := getText node) in *.
  set (w1 := readCanonical w t) in *.
  set (w2 := readPropsAlias w1 t) in *.
  set (w3 := readStateAlias w2 t) in *.
  destruct (in_dec string_dec m (unusedNames c w1)) as [H1|H1];
    [|left; now apply (readCanonical_exact c w t m)].
  right.
  destruct (in_dec string_dec m (unusedNames c w2)) as [H2|H2].
  - destruct (in_dec string_dec m (unusedNames c w3)) as [H3|H3].
    + right. destruct (escapeCanonical_exact c w3 parent t m H3 Hout) as [Hp Ht].
      unfold escapes. rewrite Hkind, Hp. fold t. rewrite Ht.
      now rewrite String.eqb_refl.
    + left. destruct (readStateAlias_exact c w2 t m Hplain H2 H3) as [alias [Ha Ht]].
      exists alias. split; [|assumption].
      unfold w2, w1 in Ha. now rewrite aliasOf_readPropsAlias, aliasOf_readCanonical in Ha.
  - left. destruct (readPropsAlias_exact c w1 t m Hplain H1 H2) as [alias [Ha Ht]].
    exists alias. split; [|assumption].
    unfold w1 in Ha. now rewrite aliasOf_readCanonical in Ha.
Qed.

Lemma X9_witness :
  getText (Syntax.canonicalRead 85 "props" "a") = (canonicalRoot PropsContract ++ "." ++ "a")%string
  \/ (exists alias, aliasOf PropsContract (set_propNames newWalker ["a"; "b"]) = Some alias
                    /\ getText (Syntax.canonicalRead 85 "props" "a") = (alias ++ "." ++ "a")%string)
  \/ escapes PropsContract ParentSourceFile (Syntax.canonicalRead 85 "props" "a") = true.
Proof.
  apply (X9_plain_name_leaves_only_when_read PropsContract
           (set_propNames newWalker ["a"; "b"]) ParentSourceFile
           (Syntax.canonicalRead 85 "props" "a") "a").
  - reflexivity.
  - reflexivity.
  - vm_compute. left; reflexivity.
  - vm_compute. intros [H|[]]. discriminate H.
Defined.

(** The text of a read of a plain State member does not hold
    [this.props.]: the first test of the hook fails on it. *)
Lemma test_props_on_state_read (m : string) :
  lacks "." m = true -> JS.test thisPropsPattern ("this.state." ++ m) = false.
Proof.
  intros Hplain.
  assert (Hm : JS.test thisPropsPattern m = false).
  { destruct (JS.test thisPropsPattern m) eqn:E; [|reflexivity].
    apply (JSFacts.test_literal_occurrences ".") in E.
    apply JSFacts.lacks_occurrences in Hplain. rewrite Hplain in E.
    simpl in E. lia. }
  unfold thisPropsPattern in *. simpl. exact Hm.
Qed.

(** A canonical read takes the member out of its set, whatever aliases
    are bound. *)
Lemma canonical_read_removes c w m parent node :
  lacks "." m = true ->
  readsCanonical c m parent node = true ->
  ~ In m (unusedNames c (enter w parent node)).
Proof.
  intros Hplain Hread. unfold readsCanonical in Hread.
  apply andb_true_iff in Hread as [Hk Ht]. apply String.eqb_eq in Ht.
  unfold enter. destruct (kind node); try discriminate.
  unfold accessProperty. rewrite Ht.
  set (t := (canonicalRoot c ++ "." ++ m)%string).
  intros Hin.
  apply (Shrinks_In _ _ _ (unusedNames_shrinks c _ _ (ShrunkFrom_escapeCanonical _ parent t)))
    in Hin.
  apply (Shrinks_In _ _ _ (unusedNames_shrinks c _ _ (ShrunkFrom_readStateAlias _ t))) in Hin.
  apply (Shrinks_In _ _ _ (unusedNames_shrinks c _ _ (ShrunkFrom_readPropsAlias _ t))) in Hin.
  unfold readCanonical, t in Hin. destruct c; cbn [canonicalRoot] in Hin.
  - change ("this.props" ++ "." ++ m)%string with ("this.props." ++ m)%string in Hin.
    rewrite test_thisProps_read in Hin.
    change (JS.substring 11 ("this.props." ++ m)) with m in Hin.
    cbn [unusedNames propNames set_propNames] in Hin.
    apply in_Utils_remove in Hin. tauto.
  - change ("this.state" ++ "." ++ m)%string with ("this.state." ++ m)%string in Hin.
    rewrite (test_props_on_state_read m Hplain), test_thisState_read in Hin.
    change (JS.substring 11 ("this.state." ++ m)) with m in Hin.
    cbn [unusedNames stateNames set_stateNames] in Hin.
    apply in_Utils_remove in Hin. tauto.
Qed.

Lemma read_after_scan (c : Contract) (m : string) (sourceFile : SourceFileNode) :
  lacks "." m = true ->
  (forall cl, In cl (scannedClasses sourceFile) ->
              forallb (everywhere (declaresNot c) (ParentNode cl)) (children cl) = true) ->
  (exists cl, In cl (scannedClasses sourceFile)
              /\ existsb (reaches (readsCanonical c m) (ParentNode cl)) (children cl) = true) ->
  ~ In m (unusedNames c (analyzed sourceFile)).
Proof.
  intros Hplain Hclasses Hreach. unfold analyzed, analyze.
  destruct (_ || _) eqn:Hgate.
  - rewrite classDeclarations_collect.
    apply (scan_reaches (fun _ => True) (declaresNot c)
             (fun w p n _ _ _ => I) (fun w p n _ _ => I) (fun w p n _ _ _ => I)
             (readsCanonical c m) (Taken c m)); try assumption; try exact I.
    + intros w p n _ Hhit _ _. now apply canonical_read_removes.
    + intros w p n Hok _ _ Hw Hin. apply Hw.
      eapply Shrinks_In; [|exact Hin]. now apply unusedNames_enter.
    + intros w p n _ _ Hw Hin. apply Hw.
      eapply Shrinks_In; [|exact Hin]. apply unusedNames_shrinks, ShrunkFrom_leave.
    + intros w n _ _ Hw. destruct c; exact Hw.
  - apply orb_false_iff in Hgate as [Hp Hs].
    apply Nat.ltb_ge in Hp, Hs.
    destruct c; simpl.
    + destruct (propNames _); [intros [] | simpl in Hp; lia].
    + destruct (stateNames _); [intros [] | simpl in Hs; lia].
Qed.

(** X8.  A read [this.props.m] ([this.state.m]) of a member name without a
    dot takes [m] out of the Props (State) unused set, whatever aliases are
    bound at that point.  When the scan of the queued classes comes to such
    a read, and no scanned class declares an interface named Props (State),
    then [m] is not in the set when the report starts and no finding names
    it, wherever the read stands in the file and whatever follows it. *)
Theorem X8_member_read_is_not_reported :
  forall (c : Contract) (m : string),
    lacks "." m = true ->
    (forall (w : Walker) (parent : Parent) (node : Node),
        readsCanonical c m parent node = true ->
        ~ In m (unusedNames c (enter w parent node)))
    /\ (forall sourceFile : SourceFileNode,
           languageVariant sourceFile = JSX ->
           (forall cl, In cl (scannedClasses sourceFile) ->
                       forallb (everywhere (declaresNot c) (ParentNode cl))
                               (children cl) = true) ->
           (exists cl, In cl (scannedClasses sourceFile)
                       /\ existsb (reaches (readsCanonical c m) (ParentNode cl))
                                  (children cl) = true) ->
           ~ In m (unusedNames c (analyzed sourceFile))
           /\ exists findings,
               Rule_apply sourceFile = Normal findings
               /\ forall f, In f findings ->
                            failureMessage f <> (failureText c ++ m)%string).
Proof.
  intros c m Hplain. split.
  - intros w parent node. now apply canonical_read_removes.
  - intros sourceFile Hjsx Hclasses Hreach.
    pose proof (read_after_scan c m sourceFile Hplain Hclasses Hreach) as Hout.
    split; [assumption|].
    destruct (Rule_apply_JSX sourceFile Hjsx) as [ps [ss [Hrun [Hps Hss]]]].
    exists (ps ++ ss). split; [assumption|].
    intros f Hin Hmsg.
    destruct (reported_messages _ _ _ _ Hps) as [Hmp _].
    destruct (reported_messages _ _ _ _ Hss) as [Hms _].
    apply (in_map failureMessage) in Hin. rewrite map_app, Hmp, Hms in Hin.
    rewrite Hmsg in Hin.
    apply in_app_iff in Hin as [Hin | Hin];
      apply in_map_iff in Hin as [name [Heq Hname]].
    + pose proof (failureText_distinct PropsContract c _ _ Heq) as <-.
      apply append_inj_l in Heq. subst name. now apply Hout.
    + pose proof (failureText_distinct StateContract c _ _ Heq) as <-.
      apply append_inj_l in Heq. subst name. now apply Hout.
Qed.

Lemma X8_witness :
  ~ In "a" (unusedNames PropsContract (analyzed (mkSourceFile JSX [sampleProps; sampleClass]))).
Proof.
  refine (proj1 (proj2 (X8_member_read_is_not_reported PropsContract "a" eq_refl)
                   (mkSourceFile JSX [sampleProps; sampleClass]) eq_refl _ _)).
  - intros cl Hcl. vm_compute in Hcl.
    destruct Hcl as [<- | []]. reflexivity.
  - exists sampleClass. split; [vm_compute; left; reflexivity | reflexivity].
Defined.

(** ** Further properties: methods that are no lifecycle hooks *)

Lemma test_containsOneOf hooks s :
  testAlternation (map JS.literal hooks) s = true -> containsOneOf hooks s.
Proof.
  unfold testAlternation. intros H.
  apply existsb_exists in H as [pattern [Hin Htest]].
  apply in_map_iff in Hin as [hook [<- Hin]].
  apply JSFacts.test_literal_inv in Htest as [before [after ->]].
  now exists hook, before, after.
Qed.

Lemma testAlternation_false hooks s :
  ~ containsOneOf hooks s -> testAlternation (map JS.literal hooks) s = false.
Proof.
  intros Hno. destruct (testAlternation _ _) eqn:E; [|reflexivity].
  now apply test_containsOneOf in E.
Qed.

Lemma stateHooks_propsHooks s : containsOneOf stateHooks s -> containsOneOf propsHooks s.
Proof.
  intros (hook & before & after & Hin & ->).
  exists hook, before, after. split; [now right | reflexivity].
Qed.

(** X10.  The two tests of [visitMethodDeclaration] hold exactly when the
    method's name holds one of the hook names as a substring.  A method
    whose name holds none of the four names, or that has no parameter,
    changes nothing when it is entered; a method whose name holds none of
    the last three names, [componentWillReceiveProps] among them, leaves
    the state alias as it is, however many parameters it has. *)
Theorem X10_only_lifecycle_methods_bind_aliases :
  (forall s, testAlternation propsHookPatterns s = true <-> containsOneOf propsHooks s)
  /\ (forall s, testAlternation stateHookPatterns s = true <-> containsOneOf stateHooks s)
  /\ (forall (w : Walker) (parent : Parent) (node : Node),
         kind node = MethodDeclaration ->
         ~ containsOneOf propsHooks (methodName node) ->
         enter w parent node = w)
  /\ (forall (w : Walker) (parent : Parent) (node : Node),
         kind node = MethodDeclaration ->
         parameters node = [] ->
         enter w parent node = w)
  /\ (forall (w : Walker) (parent : Parent) (node : Node),
         kind node = MethodDeclaration ->
         ~ containsOneOf stateHooks (methodName node) ->
         stateAlias (enter w parent node) = stateAlias w).
Proof.
  split; [|split; [|split; [|split]]].
  - intros s. split; [apply (test_containsOneOf propsHooks) | apply containsOneOf_test].
  - intros s. split; [apply (test_containsOneOf stateHooks) | apply containsOneOf_test].
  - intros w parent node Hkind Hno. unfold enter. rewrite Hkind. unfold enterMethod.
    assert (Hp : testAlternation propsHookPatterns (methodName node) = false)
      by now apply (testAlternation_false propsHooks).
    assert (Hs : testAlternation stateHookPatterns (methodName node) = false).
    { apply (testAlternation_false stateHooks). intros H. apply Hno.
      now apply stateHooks_propsHooks. }
    rewrite Hp, Hs. now destruct (parameters node) as [|first [|second rest]].
  - intros w parent node Hkind Hparams. unfold enter. rewrite Hkind.
    unfold enterMethod. now rewrite Hparams.
  - intros w parent node Hkind Hno. unfold enter. rewrite Hkind. unfold enterMethod.
    assert (Hs : testAlternation stateHookPatterns (methodName node) = false)
      by now apply (testAlternation_false stateHooks).
    rewrite Hs.
    destruct (parameters node) as [|first [|second rest]];
      destruct (testAlternation propsHookPatterns (methodName node)); reflexivity.
Qed.

Lemma X10_witness :
  enter (set_propNames newWalker ["a"]) ParentSourceFile
        (Syntax.method 70 40 "render" [Syntax.parameter 77 "props"] [])
  = set_propNames newWalker ["a"].
Proof.
  apply (proj1 (proj2 (proj2 X10_only_lifecycle_methods_bind_aliases))
           (set_propNames newWalker ["a"]) ParentSourceFile
           (Syntax.method 70 40 "render" [Syntax.parameter 77 "props"] [])).
  - reflexivity.
  - intros (hook & before & after & Hin & Hname).
    assert (Htest : testAlternation propsHookPatterns "render" = true).
    { apply (containsOneOf_test propsHooks).
      exists hook, before, after. split; [exact Hin | exact Hname]. }
    vm_compute in Htest. discriminate Htest.
Defined.

(** ** Further properties: the two contracts side by side *)

(** X11.  The two contracts do not interfere.  Two walkers that differ at
    most in the unused set and the member map of one contract still differ
    at most there after the visit of the same node, and after the scan of
    the same classes: the set and the map of the other contract, the queue,
    the aliases and the findings come out the same. *)
Theorem X11_contracts_do_not_interfere :
  forall (c : Contract) (w1 w2 : Walker),
    agreeOff c w1 w2 ->
    (forall (parent : Parent) (node : Node),
        agreeOff c (visitNode w1 parent node) (visitNode w2 parent node))
    /\ (forall classes : list Node,
           agreeOff c (fold_left walkChildren classes w1)
                      (fold_left walkChildren classes w2)).
Proof.
  intros c w1 w2 H. split.
  - intros parent node. now apply agreeOff_visitNode.
  - intros classes. revert w1 w2 H.
    induction classes as [|cl classes IH]; intros w1 w2 H; simpl; [assumption|].
    apply IH. unfold walkChildren. now apply agreeOff_visitList.
Qed.

Lemma X11_witness :
  agreeOff PropsContract
           (visitNode (set_propNames newWalker ["a"]) ParentSourceFile stateInterface)
           (visitNode newWalker ParentSourceFile stateInterface).
Proof.
  apply (proj1 (X11_contracts_do_not_interfere PropsContract
                  (set_propNames newWalker ["a"]) newWalker
                  ltac:(unfold agreeOff; simpl; repeat split; reflexivity))).
Defined.

(** ** Further properties: nodes without a hook *)

(** X12.  While no alias is bound, identifiers, calls, parameters, type
    members and the nodes of every kind the walker has no hook for change
    nothing: the visit of a tree made of such nodes hands back the walker
    it was given.  Outside constructors and lifecycle methods only property
    accesses, interface declarations and class declarations count. *)
Theorem X12_no_alias_no_effect_of_other_nodes :
  forall (w : Walker) (parent : Parent) (node : Node),
    Unbound w ->
    everywhere hookless parent node = true ->
    visitNode w parent node = w.
Proof.
  intros w parent node [Hp Hs] Hok.
  apply (visitNode_invariant (fun w' => w' = w) hookless); try assumption; try reflexivity.
  - intros w0 p0 n0 Hhere _ ->. unfold hookless in Hhere. unfold enter.
    destruct (kind n0); try discriminate; try reflexivity.
    apply Unbound_identifier. now split.
  - intros w0 p0 n0 Hhere ->. unfold hookless in Hhere. unfold leave.
    destruct (kind n0); try discriminate; reflexivity.
  - intros w0 p0 n0 Hall Hc. rewrite everywhere_unfold in Hall.
    apply andb_true_iff in Hall as [Hhere _]. unfold hookless in Hhere.
    apply isClassDeclaration_kind in Hc. rewrite Hc in Hhere. discriminate.
Qed.

Lemma X12_witness :
  visitNode (set_propNames newWalker ["a"]) ParentSourceFile
            (Syntax.call (Syntax.identifier 0 "keep") (Syntax.identifier 5 "props"))
  = set_propNames newWalker ["a"].
Proof.
  apply (X12_no_alias_no_effect_of_other_nodes (set_propNames newWalker ["a"]) ParentSourceFile
           (Syntax.call (Syntax.identifier 0 "keep") (Syntax.identifier 5 "props"))).
  - split; reflexivity.
  - reflexivity.
Defined.

(** ** Further properties: what else changes a set *)

Lemma SyntaxKind_eqb_false (a b : SyntaxKind) : SyntaxKind_eqb a b = false -> a <> b.
Proof. intros H ->. destruct b; discriminate. Qed.

(** X13.  An identifier changes an unused set only by clearing it, and
    only when its text is the alias bound for that contract and its parent
    is neither a property access nor a parameter, nor, for the props
    alias, a call of [super].  Entering a node of any kind other than an
    identifier, a property access or an interface declaration, and leaving
    a node of any kind, changes neither set. *)
Theorem X13_identifier_clears_only_as_the_alias :
  (forall (c : Contract) (w : Walker) (parent : Parent) (node : Node),
      kind node = Identifier ->
      unusedNames c (enter w parent node) <> unusedNames c w ->
      unusedNames c (enter w parent node) = []
      /\ aliasOf c w = Some (identifierText node)
      /\ parentKind parent <> PropertyAccessExpression
      /\ parentKind parent <> ParameterDeclaration
      /\ (c = PropsContract -> isParentNodeSuperCall parent = false))
  /\ (forall (c : Contract) (w : Walker) (parent : Parent) (node : Node),
         kind node <> Identifier ->
         kind node <> PropertyAccessExpression ->
         kind node <> InterfaceDeclaration ->
         unusedNames c (enter w parent node) = unusedNames c w)
  /\ (forall (c : Contract) (w : Walker) (node : Node),
         unusedNames c (leave node w) = unusedNames c w).
Proof.
  split; [|split].
  - intros c w parent node Hkind Hchange.
    unfold enter in *. rewrite Hkind in *. unfold referIdentifier in *.
    destruct c; cbn [unusedNames aliasOf] in *.
    + assert (Hst : forall x, propNames (escapeStateAlias x parent node) = propNames x).
      { intros x. unfold escapeStateAlias. destruct (stateAlias x); [case_if|]; reflexivity. }
      rewrite Hst in *. unfold escapePropsAlias in *.
      destruct (propsAlias w) as [alias|]; [|congruence].
      destruct (String.eqb (identifierText node) alias) eqn:Ht; [|simpl in *; congruence].
      destruct (SyntaxKind_eqb (parentKind parent) PropertyAccessExpression) eqn:Hpa;
        [simpl in *; congruence|].
      destruct (SyntaxKind_eqb (parentKind parent) ParameterDeclaration) eqn:Hpd;
        [simpl in *; congruence|].
      destruct (isParentNodeSuperCall parent) eqn:Hsuper; [simpl in *; congruence|].
      apply String.eqb_eq in Ht. subst alias.
      repeat split; try reflexivity; try now apply SyntaxKind_eqb_false.
    + assert (Hnames : stateNames (escapePropsAlias w parent node) = stateNames w).
      { unfold escapePropsAlias. destruct (propsAlias w); [case_if|]; reflexivity. }
      assert (Halias : stateAlias (escapePropsAlias w parent node) = stateAlias w).
      { unfold escapePropsAlias. destruct (propsAlias w); [case_if|]; reflexivity. }
      unfold escapeStateAlias in *. rewrite Halias in *.
      destruct (stateAlias w) as [alias|]; [|congruence].
      destruct (String.eqb (identifierText node) alias) eqn:Ht; [|simpl in *; congruence].
      destruct (SyntaxKind_eqb (parentKind parent) PropertyAccessExpression) eqn:Hpa;
        [simpl in *; congruence|].
      destruct (SyntaxKind_eqb (parentKind parent) ParameterDeclaration) eqn:Hpd;
        [simpl in *; congruence|].
      apply String.eqb_eq in Ht. subst alias.
      repeat split; try reflexivity; try (now apply SyntaxKind_eqb_false).
      intros Hc; discriminate Hc.
  - intros c w parent node Hid Hpa Hin. unfold enter.
    destruct (kind node); try reflexivity; try congruence.
    + unfold enterConstructor. destruct (parameters node); now destruct c.
    + unfold enterMethod.
      destruct (parameters node) as [|first [|second rest]];
        destruct (testAlternation propsHookPatterns (methodName node));
        destruct (testAlternation stateHookPatterns (methodName node));
        now destruct c.
  - intros c w node. unfold leave. destruct (kind node); now destruct c.
Qed.

Lemma X13_witness :
  unusedNames PropsContract
    (enter (set_propsAlias (set_propNames newWalker ["a"]) (Some "props"))
           ParentSourceFile (Syntax.identifier 90 "props")) = []
  /\ aliasOf PropsContract (set_propsAlias (set_propNames newWalker ["a"]) (Some "props"))
     = Some (identifierText (Syntax.identifier 90 "props"))
  /\ parentKind ParentSourceFile <> PropertyAccessExpression
  /\ parentKind ParentSourceFile <> ParameterDeclaration
  /\ (PropsContract = PropsContract -> isParentNodeSuperCall ParentSourceFile = false).
Proof.
  apply (proj1 X13_identifier_clears_only_as_the_alias PropsContract
           (set_propsAlias (set_propNames newWalker ["a"]) (Some "props"))
           ParentSourceFile (Syntax.identifier 90 "props")).
  - reflexivity.
  - vm_compute. discriminate.
Defined.
